(** * Moleskine: a shallow embedding of the notebook's client-side logic

    The browser application is a handful of JavaScript modules (Auth, Storage,
    GitHub, Markdown, Editor, Whiteboard).  Each module is embedded below as
    pure functions over an explicit state; what the browser supplies (the DOM,
    third-party libraries, the clock, HTTP responses) enters as arguments.

    Part I holds the definitions, one Rocq module per JavaScript module.
    Part II holds the theorems. *)

From Stdlib Require Import ZArith NArith Lia List Ascii String Bool Sorted.
From stdpp Require Import gmap list.
Import ListNotations.

Local Open Scope Z_scope.

(* ===================================================================== *)
(** * Part I: definitions                                                 *)
(* ===================================================================== *)

(** ** JavaScript strings and arrays *)

Module JS.

(** A JavaScript string is a sequence of UTF-16 code units. *)
Abbreviation char := N (only parsing).
Abbreviation jsstring := (list N) (only parsing).

(** A source literal, read one code unit per (ASCII) character. *)
Definition lit (s : string) : jsstring :=
  map N_of_ascii (list_ascii_of_string s).

Definition char_in_range (lo hi c : N) : bool :=
  ((lo <=? c) && (c <=? hi))%N.

(** WhiteSpace and LineTerminator code points of ECMAScript: the class [\s]
    of regular expressions and what [String.prototype.trim] strips. *)
Definition is_space (c : N) : bool :=
  char_in_range 9 13 c || (c =? 32)%N || (c =? 160)%N || (c =? 5760)%N
  || char_in_range 8192 8202 c || (c =? 8232)%N || (c =? 8233)%N
  || (c =? 8239)%N || (c =? 8287)%N || (c =? 12288)%N || (c =? 65279)%N.

(** The class [\w] (no unicode or ignoreCase flag): [A-Za-z0-9_]. *)
Definition is_word (c : N) : bool :=
  char_in_range 65 90 c || char_in_range 97 122 c || char_in_range 48 57 c
  || (c =? 95)%N.

(** LineTerminator code points, which [.] does not match. *)
Definition is_line_terminator (c : N) : bool :=
  (c =? 10)%N || (c =? 13)%N || (c =? 8232)%N || (c =? 8233)%N.

Fixpoint drop_while {A} (p : A -> bool) (l : list A) : list A :=
  match l with
  | [] => []
  | x :: l' => if p x then drop_while p l' else l
  end.

Fixpoint take_while {A} (p : A -> bool) (l : list A) : list A :=
  match l with
  | [] => []
  | x :: l' => if p x then x :: take_while p l' else []
  end.

(** [s.trim()] *)
Definition trim (s : jsstring) : jsstring :=
  rev (drop_while is_space (rev (drop_while is_space s))).

(** The truth value of a string: only the empty string is falsy. *)
Definition truthy (s : jsstring) : bool :=
  match s with [] => false | _ => true end.

Definition char_eqb (a b : N) : bool := (a =? b)%N.

Fixpoint str_eqb (a b : jsstring) : bool :=
  match a, b with
  | [], [] => true
  | x :: a', y :: b' => char_eqb x y && str_eqb a' b'
  | _, _ => false
  end.

Fixpoint starts_with (p s : jsstring) : bool :=
  match p, s with
  | [], _ => true
  | x :: p', y :: s' => char_eqb x y && starts_with p' s'
  | _ :: _, [] => false
  end.

(** [s.includes(needle)] *)
Fixpoint includes (needle s : jsstring) : bool :=
  starts_with needle s ||
  match s with
  | [] => false
  | _ :: s' => includes needle s'
  end.

(** Relative index of [slice]: negative counts from the end, then clamped. *)
Definition rel_index (len k : Z) : Z :=
  if k <? 0 then Z.max (len + k) 0 else Z.min k len.

(** [l.slice(a, b)] on arrays and strings. *)
Definition slice {A} (a b : Z) (l : list A) : list A :=
  let len := Z.of_nat (length l) in
  let from := rel_index len a in
  let to := rel_index len b in
  take (Z.to_nat (to - from)) (drop (Z.to_nat from) l).

(** [s.substring(a, b)]: both ends clamped to [0, length], swapped if needed. *)
Definition substring (a b : Z) (s : jsstring) : jsstring :=
  let len := Z.of_nat (length s) in
  let a' := Z.min (Z.max a 0) len in
  let b' := Z.min (Z.max b 0) len in
  let from := Z.min a' b' in
  let to := Z.max a' b' in
  take (Z.to_nat (to - from)) (drop (Z.to_nat from) s).

(** [s.split('\n')] *)
Fixpoint split_lines_aux (cur : jsstring) (s : jsstring) : list jsstring :=
  match s with
  | [] => [rev cur]
  | c :: s' =>
      if (c =? 10)%N then rev cur :: split_lines_aux [] s'
      else split_lines_aux (c :: cur) s'
  end.

Definition split_lines (s : jsstring) : list jsstring := split_lines_aux [] s.

(** Decimal digits of a natural number, as [Number.prototype.toString]
    prints an integer. *)
Fixpoint digits_fuel (fuel : nat) (n : N) (acc : jsstring) : jsstring :=
  match fuel with
  | O => acc
  | S f =>
      let acc' := (48 + n mod 10)%N :: acc in
      if (n <? 10)%N then acc' else digits_fuel f (n / 10)%N acc'
  end.

Definition nat_digits (n : N) : jsstring :=
  digits_fuel (S (N.to_nat (N.log2 n))) n [].

(** [String(z)] for an integral number. *)
Definition int_to_string (z : Z) : jsstring :=
  if z <? 0 then 45%N :: nat_digits (Z.to_N (- z)) else nat_digits (Z.to_N z).

(** The number a run of decimal digits writes. *)
Definition digits_value (ds : jsstring) : N :=
  fold_left (fun a d => (a * 10 + (d - 48))%N) ds 0%N.

End JS.

(** ** Whiteboard: the undo/redo history *)

Module Whiteboard.
Import JS.

Definition MAX_HISTORY : Z := 50.

(** The module's variables that the history code reads or writes.  A canvas
    element is represented by the data URL of its bitmap, which is what
    [canvas.toDataURL()] returns. *)
Record state := mkState {
  canvas : option jsstring;      (* [null] until [init] finds the element *)
  ctx : bool;                    (* [ctx] is not [null] *)
  isDrawing : bool;
  history : list jsstring;
  historyIndex : Z
}.

(** The values at module load. *)
Definition initial : state :=
  {| canvas := None; ctx := false; isDrawing := false;
     history := []; historyIndex := -1 |}.

Definition set_canvas (c : option jsstring) (s : state) : state :=
  {| canvas := c; ctx := ctx s; isDrawing := isDrawing s;
     history := history s; historyIndex := historyIndex s |}.

Definition set_history (h : list jsstring) (i : Z) (s : state) : state :=
  {| canvas := canvas s; ctx := ctx s; isDrawing := isDrawing s;
     history := h; historyIndex := i |}.

(** [history[i]]: [undefined] (here [None]) outside the array. *)
Definition history_at (h : list jsstring) (i : Z) : option jsstring :=
  if i <? 0 then None else h !! Z.to_nat i.

(** [saveState()] *)
Definition saveState (s : state) : state :=
  match canvas s with
  | None => s
  | Some url =>
      let h1 := slice 0 (historyIndex s + 1) (history s) in
      let h2 := h1 ++ [url] in
      let i2 := historyIndex s + 1 in
      if Z.of_nat (length h2) >? MAX_HISTORY
      then set_history (tail h2) (i2 - 1) s
      else set_history h2 i2 s
  end.

(** [undo()]: the new state and the [img.src] whose load it starts, if any.
    The image is painted later, by [onload]. *)
Definition undo (s : state) : state * option jsstring :=
  if historyIndex s >? 0 then
    let i := historyIndex s - 1 in
    (set_history (history s) i s, history_at (history s) i)
  else (s, None).

(** [redo()], likewise. *)
Definition redo (s : state) : state * option jsstring :=
  if historyIndex s <? Z.of_nat (length (history s)) - 1 then
    let i := historyIndex s + 1 in
    (set_history (history s) i s, history_at (history s) i)
  else (s, None).

(** The [img.onload] handler of [undo], [redo] and [redrawFromHistory], run
    when the image [url] has loaded: the canvas is cleared and the image
    drawn onto it.  Without a canvas it throws. *)
Definition onload (url : jsstring) (s : state) : state :=
  match canvas s with
  | Some _ => if ctx s then set_canvas (Some url) s else s
  | None => s
  end.

(** [clear()]; [blank] is the data URL of the canvas once [clearRect] has
    emptied it.  With a context but no canvas, reading [canvas.width] throws
    and nothing changes. *)
Definition clear (blank : jsstring) (s : state) : state :=
  if ctx s then
    match canvas s with
    | None => s
    | Some _ => saveState (set_canvas (Some blank) s)
    end
  else s.

(** [init()]; [found] is what [document.getElementById('whiteboard-canvas')]
    returns, a canvas element (with the bitmap it has after [resizeCanvas])
    or [null].  [resized] tells whether [resizeCanvas()] ran to its end: it
    throws, and [init] with it, when [getImageData] is asked for an area of
    width or height 0. *)
Definition init (found : option jsstring) (resized : bool) (s : state) : state :=
  let s1 := set_canvas found s in
  match found with
  | None => s1
  | Some _ =>
      let s2 := {| canvas := canvas s1; ctx := true; isDrawing := isDrawing s1;
                   history := history s1; historyIndex := historyIndex s1 |} in
      if resized then saveState s2 else s2
  end.

(** [handleMouseDown(e)] *)
Definition handleMouseDown (s : state) : state :=
  {| canvas := canvas s; ctx := ctx s; isDrawing := true;
     history := history s; historyIndex := historyIndex s |}.

(** [handleMouseUp(e)]; [drawn] is the bitmap the gesture leaves on the
    canvas, or [None] when [getPosition(e)] throws, as it does for the
    [touchend] event, whose list of touches is empty. *)
Definition handleMouseUp (drawn : option jsstring) (s : state) : state :=
  if isDrawing s then
    let s1 := {| canvas := canvas s; ctx := ctx s; isDrawing := false;
                 history := history s; historyIndex := historyIndex s |} in
    match drawn with
    | None => s1
    | Some url =>
        saveState (set_canvas (match canvas s with
                               | Some _ => Some url
                               | None => None
                               end) s1)
    end
  else s.

(** The calls that reach the history. *)
Inductive op :=
| Init (found : option jsstring) (resized : bool)
| SaveState
| Undo
| Redo
| Clear (blank : jsstring)
| MouseDown
| MouseUp (drawn : option jsstring)
| ImageLoaded (url : jsstring).

Definition step (s : state) (o : op) : state :=
  match o with
  | Init found resized => init found resized s
  | SaveState => saveState s
  | Undo => fst (undo s)
  | Redo => fst (redo s)
  | Clear blank => clear blank s
  | MouseDown => handleMouseDown s
  | MouseUp drawn => handleMouseUp drawn s
  | ImageLoaded url => onload url s
  end.

Definition run (ops : list op) (s : state) : state := fold_left step ops s.

(** The states the module can be in: those some sequence of calls produces
    from the values at load. *)
Definition reachable (s : state) : Prop := exists ops, s = run ops initial.

(** No snapshot was ever taken: the values at load. *)
Definition pristine (s : state) : Prop :=
  history s = [] /\ historyIndex s = -1.

(** A snapshot stack with its cursor inside it. *)
Definition proper (s : state) : Prop :=
  0 <= historyIndex s < Z.of_nat (length (history s))
  /\ Z.of_nat (length (history s)) <= MAX_HISTORY.

(** The [init] calls that found the canvas element and ran to their end. *)
Definition found_canvas (o : op) : bool :=
  match o with Init (Some _) true => true | _ => false end.

(** [redrawFromHistory()]: [None] when it returns at once, else the
    [img.src] it sets, [Some None] being [undefined]. *)
Definition redrawFromHistory (s : state) : option (option jsstring) :=
  if historyIndex s <? 0 then None
  else Some (history_at (history s) (historyIndex s)).

(** [n] calls of [undo()] in a row. *)
Fixpoint undo_times (n : nat) (s : state) : state :=
  match n with
  | O => s
  | S n' => undo_times n' (fst (undo s))
  end.

End Whiteboard.

(** ** Regular expressions

    The program's regular expressions use literals, character classes,
    greedy repetitions of a class, one capture group and the anchors [^] and
    [$].  They are run by a backtracking matcher that tries the longest
    repetition first, as ECMAScript prescribes. *)

Module Regex.
Import JS.

Inductive node :=
| Char (p : N -> bool)              (* one code unit: a literal or a class *)
| Many (min : nat) (p : N -> bool)  (* greedy repetition: [+] is 1, [*] is 0 *)
| Open                              (* "(" of capture group 1 *)
| Close                             (* ")" of capture group 1 *)
| LineStart                         (* [^] under the m flag *)
| LineEnd                           (* [$] under the m flag *)
| Start.                            (* [^] without the m flag *)

(** The code unit before the position reached after [k] more units. *)
Definition prev_after (prev : option N) (k : nat) (s : jsstring) : option N :=
  match k with
  | O => prev
  | S k' => match s !! k' with Some c => Some c | None => prev end
  end.

(** Longest first: [try k], then [try (k-1)], ..., down to [try min]. *)
Fixpoint greedy {R} (try : nat -> option R) (min k : nat) : option R :=
  if Nat.ltb k min then None
  else match try k with
       | Some r => Some r
       | None => match k with
                 | O => None
                 | S k' => greedy try min k'
                 end
       end.

(** [exec re pos opened grp prev s] matches [re] against [s], [pos] code
    units into the match, with [prev] the unit just before [s].  It returns
    the length of the whole match and the bounds of group 1. *)
Fixpoint exec (re : list node) (pos opened : nat) (grp : option (nat * nat))
    (prev : option N) (s : jsstring) : option (nat * option (nat * nat)) :=
  match re with
  | [] => Some (pos, grp)
  | Char p :: re' =>
      match s with
      | c :: s' => if p c then exec re' (S pos) opened grp (Some c) s' else None
      | [] => None
      end
  | Many min p :: re' =>
      greedy (fun k => exec re' (pos + k)%nat opened grp (prev_after prev k s)
                            (drop k s))
             min (length (take_while p s))
  | Open :: re' => exec re' pos pos grp prev s
  | Close :: re' => exec re' pos opened (Some (opened, pos)) prev s
  | LineStart :: re' =>
      match prev with
      | None => exec re' pos opened grp prev s
      | Some c =>
          if is_line_terminator c then exec re' pos opened grp prev s else None
      end
  | LineEnd :: re' =>
      match s with
      | [] => exec re' pos opened grp prev s
      | c :: _ =>
          if is_line_terminator c then exec re' pos opened grp prev s else None
      end
  | Start :: re' =>
      match prev with
      | None => exec re' pos opened grp prev s
      | Some _ => None
      end
  end.

(** A match at the head of [s]: its length and the text of group 1. *)
Definition match_at (re : list node) (prev : option N) (s : jsstring)
  : option (nat * option jsstring) :=
  match exec re 0 0 None prev s with
  | Some (len, grp) =>
      Some (len, match grp with
                 | Some (a, b) => Some (take (b - a) (drop a s))
                 | None => None
                 end)
  | None => None
  end.

(** [s.replace(re, f)] for a regular expression with the g flag and a
    callback [f(match, group1)].  The scan goes left to right; [skip] counts
    the units of the last match still to pass.  After an empty match the
    scan moves on by one unit. *)
Fixpoint replace_go (re : list node) (f : jsstring -> option jsstring -> jsstring)
    (skip : nat) (prev : option N) (s : jsstring) {struct s} : jsstring :=
  match s with
  | [] =>
      match skip with
      | O => match match_at re prev [] with
             | Some (_, g) => f [] g
             | None => []
             end
      | S _ => []
      end
  | c :: s' =>
      match skip with
      | S k => replace_go re f k (Some c) s'
      | O =>
          match match_at re prev s with
          | Some (O, g) => f [] g ++ c :: replace_go re f 0 (Some c) s'
          | Some (S k, g) => f (take (S k) s) g ++ replace_go re f k (Some c) s'
          | None => c :: replace_go re f 0 (Some c) s'
          end
      end
  end.

Definition replace_all (re : list node) (f : jsstring -> option jsstring -> jsstring)
    (s : jsstring) : jsstring :=
  replace_go re f 0 None s.

(** [s.replace(re, text)] with the g flag, for a replacement text free of
    [$] patterns. *)
Definition replace_all_text (re : list node) (text : jsstring) (s : jsstring)
  : jsstring :=
  replace_all re (fun _ _ => text) s.

(** The first match at or after the head of [s]: the text before it, the
    match, group 1 and the text after it. *)
Fixpoint search (re : list node) (before : jsstring) (prev : option N)
    (s : jsstring) : option (jsstring * jsstring * option jsstring * jsstring) :=
  match match_at re prev s with
  | Some (len, g) => Some (rev before, take len s, g, drop len s)
  | None =>
      match s with
      | [] => None
      | c :: s' => search re (c :: before) (Some c) s'
      end
  end.

(** [s.match(re)] without the g flag: the first match and its group 1. *)
Definition match_first (re : list node) (s : jsstring)
  : option (jsstring * option jsstring) :=
  match search re [] None s with
  | Some (_, m, g, _) => Some (m, g)
  | None => None
  end.

(** [s.replace(re, text)] without the g flag, for a replacement text free of
    [$] patterns: only the first match is replaced. *)
Definition replace_first (re : list node) (text : jsstring) (s : jsstring)
  : jsstring :=
  match search re [] None s with
  | Some (before, _, _, after) => before ++ text ++ after
  | None => s
  end.

(** Expressions without [^]: what precedes the position does not matter. *)
Definition anchor_free (re : list node) : bool :=
  forallb (fun n => match n with LineStart | Start => false | _ => true end) re.

(** The expression [d (inside+) d] with the repetition as group 1. *)
Definition delimited_re (d : jsstring) (inside : N -> bool) : list node :=
  map (fun c => Char (char_eqb c)) d
  ++ Open :: Many 1 inside :: Close :: map (fun c => Char (char_eqb c)) d.

(** A span "[d] contents [d]" at the head of [s], found directly: the
    length of the span and its contents. *)
Definition span_at (d : jsstring) (inside : N -> bool) (s : jsstring)
  : option (nat * option jsstring) :=
  if starts_with d s then
    let s1 := drop (length d) s in
    let body := take_while inside s1 in
    if Nat.ltb (length body) 1 then None
    else if starts_with d (drop (length body) s1)
         then Some ((length d + length body + length d)%nat, Some body)
         else None
  else None.

(** What the spec's words say one pass of a replacement does: going from
    left to right, every span "[d] contents [d]" whose contents are not empty
    and lie inside the class is replaced by [shown contents]; everything
    else is kept. *)
Inductive replaced (d : jsstring) (inside : N -> bool)
    (shown : jsstring -> jsstring) : jsstring -> jsstring -> Prop :=
| replaced_end : replaced d inside shown [] []
| replaced_span body rest out :
    body <> [] -> forallb inside body = true ->
    replaced d inside shown rest out ->
    replaced d inside shown (d ++ body ++ d ++ rest) (shown body ++ out)
| replaced_unit c s out :
    ~ (exists body rest,
         c :: s = d ++ body ++ d ++ rest /\ body <> []
         /\ forallb inside body = true) ->
    replaced d inside shown s out ->
    replaced d inside shown (c :: s) (c :: out).

End Regex.

(** ** Markdown: the rendering pipeline *)

Module Markdown.
Import JS Regex.

(** What a call into KaTeX does: return markup or throw. *)
Inductive outcome :=
| Returns (html : jsstring)
| Throws.

(** What the page has loaded.  [marked] and [katex] are [None] when
    [typeof marked] or [typeof katex] is ['undefined']; [marked] stands for
    [marked.parse] and [katex m d] for
    [katex.renderToString(m, {displayMode: d, throwOnError: false})].
    [text_to_html] is the DOM's serialisation of a text node, as read back
    through [innerHTML]. *)
Record libs := mkLibs {
  marked : option (jsstring -> jsstring);
  katex : option (jsstring -> bool -> outcome);
  text_to_html : jsstring -> jsstring
}.

Definition is_dollar (c : N) : bool := char_eqb 36 c.
Definition not_dollar (c : N) : bool := negb (is_dollar c).
Definition not_dollar_nor_newline (c : N) : bool :=
  negb (is_dollar c || char_eqb 10 c).

(** [/\$\$([^$]+)\$\$/g] *)
Definition block_re : list node :=
  [Char is_dollar; Char is_dollar; Open; Many 1 not_dollar; Close;
   Char is_dollar; Char is_dollar].

(** [/\$([^$\n]+)\$/g] *)
Definition inline_re : list node :=
  [Char is_dollar; Open; Many 1 not_dollar_nor_newline; Close; Char is_dollar].

(** The callback of both passes: render the trimmed group, or keep the match
    when KaTeX throws. *)
Definition render_math (k : jsstring -> bool -> outcome) (display : bool)
    (m : jsstring) (math : option jsstring) : jsstring :=
  match math with
  | Some text =>
      match k (trim text) display with
      | Returns html => html
      | Throws => m
      end
  | None => m          (* [math.trim()] throws inside the [try] *)
  end.

(** [processMath(html)] *)
Definition processMath (L : libs) (html : jsstring) : jsstring :=
  match katex L with
  | None => html
  | Some k =>
      let html1 := replace_all block_re (render_math k true) html in
      replace_all inline_re (render_math k false) html1
  end.

(** [escapeHtml(text)] *)
Definition escapeHtml (L : libs) (text : jsstring) : jsstring :=
  text_to_html L text.

(** [parse(markdown)] *)
Definition parse (L : libs) (markdown : jsstring) : jsstring :=
  match marked L with
  | None => escapeHtml L markdown
  | Some marked_parse => processMath L (marked_parse markdown)
  end.

Definition is_hash (c : N) : bool := char_eqb 35 c.
Definition is_dot (c : N) : bool := negb (is_line_terminator c).

(** [/^#\s+(.+)$/m] *)
Definition h1_re : list node :=
  [LineStart; Char is_hash; Many 1 is_space; Open; Many 1 is_dot; Close;
   LineEnd].

(** [/^#+\s*/] *)
Definition hashes_re : list node :=
  [Start; Many 1 is_hash; Many 0 is_space].

(** [extractTitle(markdown)]; [None] stands for the [TypeError] of
    [h1Match[1].trim()] on a match without group 1. *)
Definition extractTitle (markdown : jsstring) : option jsstring :=
  match match_first h1_re markdown with
  | Some (_, Some g) => Some (trim g)
  | Some (_, None) => None
  | None =>
      match filter (fun l => truthy (trim l) = true) (split_lines markdown) with
      | l :: _ => Some (slice 0 50 (trim (replace_first hashes_re [] l)))
      | [] => Some (lit "Untitled")
      end
  end.

(** What stands in for a span with contents [body] after a pass of
    [processMath]: KaTeX's markup for the trimmed contents, or the span
    itself when KaTeX throws. *)
Definition shown (k : jsstring -> bool -> outcome) (display : bool)
    (d body : jsstring) : jsstring :=
  match k (trim body) display with
  | Returns html => html
  | Throws => d ++ body ++ d
  end.

(** For examples: a stand-in for KaTeX that shows which mode rendered
    what, and a page where [marked] hands its input through. *)
Definition tex (m : jsstring) (display : bool) : outcome :=
  Returns (lit (if display then "<D>" else "<I>") ++ m ++ lit "</>").

Definition page : libs :=
  {| marked := Some (fun md => md); katex := Some tex;
     text_to_html := fun t => t |}.

(** A text without "#". *)
Definition no_hash (s : jsstring) : bool :=
  forallb (fun c => negb (is_hash c)) s.

End Markdown.

(** ** Auth: the password gate *)

(** [TextEncoder.encode] followed by [crypto.subtle.digest('SHA-256', _)],
    after the WHATWG Encoding standard and FIPS 180-4. *)
Module Sha256.
Import JS.
Local Open Scope N_scope.

Definition is_high_surrogate (c : N) : bool := char_in_range 0xD800 0xDBFF c.
Definition is_low_surrogate (c : N) : bool := char_in_range 0xDC00 0xDFFF c.

(** The code points of a string, with [high] the lead surrogate that
    awaits its trail; an unpaired surrogate reads as U+FFFD. *)
Fixpoint code_points (high : option N) (s : jsstring) : list N :=
  match s with
  | [] => match high with Some _ => [0xFFFD] | None => [] end
  | c :: s' =>
      match high with
      | Some h =>
          if is_low_surrogate c
          then (0x10000 + N.shiftl (h - 0xD800) 10 + (c - 0xDC00))
               :: code_points None s'
          else if is_high_surrogate c then 0xFFFD :: code_points (Some c) s'
          else 0xFFFD :: c :: code_points None s'
      | None =>
          if is_high_surrogate c then code_points (Some c) s'
          else if is_low_surrogate c then 0xFFFD :: code_points None s'
          else c :: code_points None s'
      end
  end.

Definition utf8_of_code_point (cp : N) : list N :=
  if cp <? 0x80 then [cp]
  else if cp <? 0x800 then
    [N.lor 0xC0 (N.shiftr cp 6); N.lor 0x80 (N.land cp 0x3F)]
  else if cp <? 0x10000 then
    [N.lor 0xE0 (N.shiftr cp 12); N.lor 0x80 (N.land (N.shiftr cp 6) 0x3F);
     N.lor 0x80 (N.land cp 0x3F)]
  else
    [N.lor 0xF0 (N.shiftr cp 18); N.lor 0x80 (N.land (N.shiftr cp 12) 0x3F);
     N.lor 0x80 (N.land (N.shiftr cp 6) 0x3F); N.lor 0x80 (N.land cp 0x3F)].

(** [new TextEncoder().encode(message)] *)
Definition utf8_encode (s : jsstring) : list N :=
  concat (map utf8_of_code_point (code_points None s)).

Definition w32 (x : N) : N := x mod 0x100000000.
Definition add32 (a b : N) : N := w32 (a + b).
Definition rotr (n x : N) : N := N.lor (N.shiftr x n) (w32 (N.shiftl x (32 - n))).
Definition not32 (x : N) : N := 0xFFFFFFFF - x.

Definition Ch (x y z : N) : N := N.lxor (N.land x y) (N.land (not32 x) z).
Definition Maj (x y z : N) : N :=
  N.lxor (N.lxor (N.land x y) (N.land x z)) (N.land y z).
Definition Sigma0 (x : N) : N := N.lxor (N.lxor (rotr 2 x) (rotr 13 x)) (rotr 22 x).
Definition Sigma1 (x : N) : N := N.lxor (N.lxor (rotr 6 x) (rotr 11 x)) (rotr 25 x).
Definition sigma0 (x : N) : N := N.lxor (N.lxor (rotr 7 x) (rotr 18 x)) (N.shiftr x 3).
Definition sigma1 (x : N) : N := N.lxor (N.lxor (rotr 17 x) (rotr 19 x)) (N.shiftr x 10).

(** The first primes, by trial division. *)
Definition is_prime (n : nat) : bool :=
  Nat.ltb 1 n && forallb (fun d => negb (Nat.eqb (n mod d) 0)) (seq 2 (n - 2)).

Definition primes (count : nat) : list N :=
  map N.of_nat (take count (List.filter is_prime (seq 2 400))).

(** The integer cube root, bit by bit from the top. *)
Fixpoint cube_root_bits (n : N) (bits : nat) (r : N) : N :=
  match bits with
  | O => r
  | S b =>
      let r' := r + N.shiftl 1 (N.of_nat b) in
      cube_root_bits n b (if r' * r' * r' <=? n then r' else r)
  end.

Definition cube_root (n : N) : N := cube_root_bits n 40 0.

(** The first 32 bits of the fractional parts of the cube roots of the
    first 64 primes. *)
Definition K : list N :=
  Eval vm_compute in
    map (fun p => w32 (cube_root (N.shiftl p 96))) (primes 64).

(** The eight working variables, and the hash value between blocks. *)
Definition regs : Type := N * N * N * N * N * N * N * N.

(** The first 32 bits of the fractional parts of the square roots of the
    first 8 primes. *)
Definition H0 : regs :=
  Eval vm_compute in
    match map (fun p => w32 (N.sqrt (N.shiftl p 64))) (primes 8) with
    | [a; b; c; d; e; f; g; h] => (a, b, c, d, e, f, g, h)
    | _ => (0, 0, 0, 0, 0, 0, 0, 0)
    end.

(** Message bytes, the bit 1, zeros up to 56 mod 64, the bit length on 64
    bits. *)
Definition be_bytes (count : nat) (x : N) : list N :=
  map (fun i => N.land (N.shiftr x (8 * N.of_nat i)) 0xFF) (rev (seq 0 count)).

Definition pad (msg : list N) : list N :=
  let len := N.of_nat (length msg) in
  let zeros := N.to_nat ((64 + 55 - len mod 64) mod 64) in
  msg ++ 0x80 :: repeat 0 zeros ++ be_bytes 8 (8 * len).

Fixpoint words_of (fuel : nat) (bytes : list N) : list N :=
  match fuel, bytes with
  | S f, b0 :: b1 :: b2 :: b3 :: r =>
      (N.shiftl b0 24 + N.shiftl b1 16 + N.shiftl b2 8 + b3) :: words_of f r
  | _, _ => []
  end.

(** The message schedule, newest word first. *)
Fixpoint schedule (n : nat) (w : list N) : list N :=
  match n with
  | O => w
  | S n' =>
      let x := add32 (add32 (sigma1 (nth 1 w 0)) (nth 6 w 0))
                     (add32 (sigma0 (nth 14 w 0)) (nth 15 w 0)) in
      schedule n' (x :: w)
  end.

Definition round (r : regs) (kw : N * N) : regs :=
  let '(a, b, c, d, e, f, g, h) := r in
  let '(k, w) := kw in
  let t1 := add32 (add32 (add32 h (Sigma1 e)) (add32 (Ch e f g) k)) w in
  let t2 := add32 (Sigma0 a) (Maj a b c) in
  (add32 t1 t2, a, b, c, add32 d t1, e, f, g).

Definition compress (h : regs) (block : list N) : regs :=
  let w := rev (schedule 48 (rev (words_of 16 block))) in
  let '(a, b, c, d, e, f, g, h') := fold_left round (combine K w) h in
  let '(a0, b0, c0, d0, e0, f0, g0, h0) := h in
  (add32 a0 a, add32 b0 b, add32 c0 c, add32 d0 d,
   add32 e0 e, add32 f0 f, add32 g0 g, add32 h0 h').

Fixpoint blocks (fuel : nat) (h : regs) (bytes : list N) : regs :=
  match fuel, bytes with
  | S f, _ :: _ => blocks f (compress h (take 64 bytes)) (drop 64 bytes)
  | _, _ => h
  end.

(** The 32 bytes of the digest. *)
Definition digest (msg : list N) : list N :=
  let p := pad msg in
  let '(a, b, c, d, e, f, g, h) := blocks (length p) H0 p in
  concat (map (be_bytes 4) [a; b; c; d; e; f; g; h]).

End Sha256.

Module Auth.
Import JS.

(** SHA-256 of ['moleskine'] *)
Definition DEFAULT_PASSWORD_HASH : jsstring :=
  lit "d950113d83977940d0160cdc6f59edd3da64ac03b4f7cd896a27921a45cd8fb4".

Definition SESSION_KEY : jsstring := lit "moleskine_auth".
Definition HASH_KEY : jsstring := lit "moleskine_password_hash".

(** The browser storage the module works on. *)
Record storage := mkStorage {
  localStorage : gmap (list N) (list N);
  sessionStorage : gmap (list N) (list N)
}.

Definition hex_digit (n : N) : N :=
  if (n <? 10)%N then (48 + n)%N else (87 + n)%N.

(** [n.toString(16)] *)
Fixpoint to_hex_fuel (fuel : nat) (n : N) (acc : jsstring) : jsstring :=
  match fuel with
  | O => acc
  | S f =>
      let acc' := hex_digit (n mod 16) :: acc in
      if (n <? 16)%N then acc' else to_hex_fuel f (n / 16)%N acc'
  end.

Definition to_hex (n : N) : jsstring :=
  to_hex_fuel (S (N.to_nat (N.log2 n))) n [].

(** [s.padStart(len, fill)] for a one-unit [fill]. *)
Definition padStart (len : nat) (fill : N) (s : jsstring) : jsstring :=
  repeat fill (len - length s) ++ s.

(** [sha256(message)]: the digest in hexadecimal. *)
Definition sha256 (message : jsstring) : jsstring :=
  let msgBuffer := Sha256.utf8_encode message in
  let hashArray := Sha256.digest msgBuffer in
  concat (map (fun b => padStart 2 48%N (to_hex b)) hashArray).

(** [getPasswordHash()]: [localStorage.getItem(HASH_KEY) || DEFAULT] *)
Definition getPasswordHash (st : storage) : jsstring :=
  match localStorage st !! HASH_KEY with
  | Some h => if truthy h then h else DEFAULT_PASSWORD_HASH
  | None => DEFAULT_PASSWORD_HASH
  end.

(** [setPassword(newPassword)] *)
Definition setPassword (newPassword : jsstring) (st : storage) : bool * storage :=
  let hash := sha256 newPassword in
  (true, {| localStorage := <[HASH_KEY := hash]> (localStorage st);
            sessionStorage := sessionStorage st |}).

(** [isAuthenticated()] *)
Definition isAuthenticated (st : storage) : bool :=
  match sessionStorage st !! SESSION_KEY with
  | Some v => str_eqb v (lit "true")
  | None => false
  end.

(** [login(password)] *)
Definition login (password : jsstring) (st : storage) : bool * storage :=
  let inputHash := sha256 password in
  let storedHash := getPasswordHash st in
  if str_eqb inputHash storedHash then
    (true, {| localStorage := localStorage st;
              sessionStorage := <[SESSION_KEY := lit "true"]> (sessionStorage st) |})
  else (false, st).

(** [logout()], up to the page change. *)
Definition logout (st : storage) : storage :=
  {| localStorage := localStorage st;
     sessionStorage := delete SESSION_KEY (sessionStorage st) |}.

(** [requireAuth()]: its result and the page it sends the browser to. *)
Definition requireAuth (st : storage) : bool * option jsstring :=
  if isAuthenticated st then (true, None)
  else (false, Some (lit "index.html")).

(** What the login form shows after a submit. *)
Inductive submitted :=
| Redirected (page : jsstring)
| Refused (error_text : jsstring).

(** The [submit] handler that [initAuthForm] installs, for the text
    [password] of the password field. *)
Definition submit (password : jsstring) (st : storage) : submitted * storage :=
  if negb (truthy password)
  then (Refused (lit "Please enter a password"), st)
  else
    let '(success, st') := login password st in
    if success then (Redirected (lit "app.html"), st')
    else (Refused (lit "Incorrect password"), st').

(** The digits [0-9a-f]. *)
Definition is_lower_hex (c : N) : bool :=
  char_in_range 48 57 c || char_in_range 97 102 c.

End Auth.

(** ** Storage: drafts, settings and recent notebooks in localStorage *)

Module Storage.
Import JS.

(** The names every plain object inherits from [Object.prototype]. *)
Definition object_prototype_names : list jsstring :=
  map lit ["constructor"; "__defineGetter__"; "__defineSetter__";
           "hasOwnProperty"; "__lookupGetter__"; "__lookupSetter__";
           "isPrototypeOf"; "propertyIsEnumerable"; "toString"; "valueOf";
           "__proto__"; "toLocaleString"]%string.

Definition inherited (name : jsstring) : bool :=
  existsb (str_eqb name) object_prototype_names.

Definition proto_name : jsstring := lit "__proto__".

(** What [obj[name]] reads on a plain object with own properties [own]: an
    own property, a member of [Object.prototype], or [undefined]. *)
Inductive read (A : Type) :=
| Own (v : A)
| Builtin (name : jsstring)
| Undefined.
Arguments Own {A} v.
Arguments Builtin {A} name.
Arguments Undefined {A}.

Definition get_property {A} (own : gmap (list N) A) (name : jsstring) : read A :=
  match own !! name with
  | Some v => Own v
  | None => if inherited name then Builtin name else Undefined
  end.

(** [obj[name] = v] on a plain object: ['__proto__'] reaches the setter of
    [Object.prototype] unless the object has an own property of that name,
    and then no own property is made. *)
Definition set_property {A} (own : gmap (list N) A) (name : jsstring) (v : A)
  : gmap (list N) A :=
  match own !! name with
  | None => if str_eqb name proto_name then own else <[name := v]> own
  | Some _ => <[name := v]> own
  end.

(** A localStorage item, by what [JSON.parse] makes of its text.  The module
    alone writes its three keys, always with [JSON.stringify] of an object
    or an array of the expected shape. *)
Inductive item (A : Type) :=
| Unparseable            (* [JSON.parse] throws *)
| Falsy                  (* [null], [false], [0] or [""] *)
| Value (v : A).
Arguments Unparseable {A}.
Arguments Falsy {A}.
Arguments Value {A} v.

(** [JSON.parse(localStorage.getItem(key)) || fallback], inside
    [try ... catch { return fallback }]; a missing item reads as [null]. *)
Definition parse_or {A} (fallback : A) (stored : option (item A)) : A :=
  match stored with
  | Some (Value v) => v
  | _ => fallback
  end.

Record draft := mkDraft {
  content : jsstring;
  title : jsstring;
  updatedAt : jsstring
}.

(** The values a setting can take. *)
Unset Elimination Schemes.
Inductive json :=
| JNull
| JBool (b : bool)
| JNum (z : Z)
| JStr (s : jsstring)
| JArr (l : list json)
| JObj (l : list (jsstring * json)).
Set Elimination Schemes.

(** An entry of the recent list: [id], [title], [accessedAt]. *)
Record recent_entry := mkRecent {
  r_id : jsstring;
  r_title : jsstring;
  accessedAt : jsstring
}.

(** The items under [DRAFTS_KEY], [SETTINGS_KEY] and [RECENT_KEY]; [None] is
    a missing item.  [setItem] is taken to succeed. *)
Record storage := mkStorage {
  drafts_item : option (item (gmap (list N) draft));
  settings_item : option (item (gmap (list N) json));
  recent_item : option (item (list recent_entry))
}.

Definition empty : storage :=
  {| drafts_item := None; settings_item := None; recent_item := None |}.

(** [getDrafts()] *)
Definition getDrafts (st : storage) : gmap (list N) draft :=
  parse_or ∅ (drafts_item st).

(** [saveDraft(id, content, title = 'Untitled')]; [now] is
    [new Date().toISOString()]. *)
Definition saveDraft (id : jsstring) (content : jsstring)
    (title : option jsstring) (now : jsstring) (st : storage) : storage :=
  let drafts := getDrafts st in
  let drafts' :=
    set_property drafts id
      {| content := content; title := default (lit "Untitled") title;
         updatedAt := now |} in
  {| drafts_item := Some (Value drafts');
     settings_item := settings_item st; recent_item := recent_item st |}.

(** The result of [getDraft]: a draft, a member of [Object.prototype], or
    [null]. *)
Inductive got :=
| GotDraft (d : draft)
| GotBuiltin (name : jsstring)
| Null.

(** [getDraft(id)]: [drafts[id] || null]; objects and functions are truthy. *)
Definition getDraft (id : jsstring) (st : storage) : got :=
  match get_property (getDrafts st) id with
  | Own d => GotDraft d
  | Builtin name => GotBuiltin name
  | Undefined => Null
  end.

(** [deleteDraft(id)] *)
Definition deleteDraft (id : jsstring) (st : storage) : storage :=
  let drafts := getDrafts st in
  {| drafts_item := Some (Value (delete id drafts));
     settings_item := settings_item st; recent_item := recent_item st |}.

Definition default_settings : gmap (list N) json :=
  {[ lit "theme" := JStr (lit "light");
     lit "fontSize" := JNum 16;
     lit "editorMode" := JStr (lit "split") ]}.

(** [getSettings()] *)
Definition getSettings (st : storage) : gmap (list N) json :=
  parse_or default_settings (settings_item st).

(** [saveSettings(settings)]: [{ ...current, ...settings }] *)
Definition saveSettings (settings : gmap (list N) json) (st : storage)
  : gmap (list N) json * storage :=
  let current := getSettings st in
  let updated := settings ∪ current in
  (updated,
   {| drafts_item := drafts_item st;
      settings_item := Some (Value updated); recent_item := recent_item st |}).

(** [getSetting(key)] *)
Definition getSetting (key : jsstring) (st : storage) : read json :=
  get_property (getSettings st) key.

(** [setSetting(key, value)]: [saveSettings({ [key]: value })] *)
Definition setSetting (key : jsstring) (value : json) (st : storage)
  : gmap (list N) json * storage :=
  saveSettings {[ key := value ]} st.

(** [getRecent()] *)
Definition getRecent (st : storage) : list recent_entry :=
  parse_or [] (recent_item st).

(** [addToRecent(notebook)] for a notebook with the given [id] and [title];
    [now] is [new Date().toISOString()]. *)
Definition addToRecent (nb_id nb_title : jsstring) (now : jsstring)
    (st : storage) : storage :=
  let recent := getRecent st in
  let recent := filter (fun r => str_eqb (r_id r) nb_id = false) recent in
  let recent :=
    {| r_id := nb_id; r_title := nb_title; accessedAt := now |} :: recent in
  let recent := slice 0 10 recent in
  {| drafts_item := drafts_item st; settings_item := settings_item st;
     recent_item := Some (Value recent) |}.

(** [clearAll()] *)
Definition clearAll (st : storage) : storage := empty.

(** The calls that write to the storage. *)
Inductive op :=
| SaveDraft (id content : jsstring) (title : option jsstring) (now : jsstring)
| DeleteDraft (id : jsstring)
| SaveSettings (settings : gmap (list N) json)
| AddToRecent (nb_id nb_title now : jsstring)
| ClearAll.

Definition step (st : storage) (o : op) : storage :=
  match o with
  | SaveDraft i c t now => saveDraft i c t now st
  | DeleteDraft i => deleteDraft i st
  | SaveSettings m => snd (saveSettings m st)
  | AddToRecent i t now => addToRecent i t now st
  | ClearAll => clearAll st
  end.

Definition run (ops : list op) (st : storage) : storage := fold_left step ops st.

(** Of every id in [l] the first entry that has it, in the order of [l]. *)
Fixpoint distinct_ids (l : list recent_entry) : list recent_entry :=
  match l with
  | [] => []
  | r :: l' =>
      r :: filter (fun x => str_eqb (r_id x) (r_id r) = false) (distinct_ids l')
  end.

(** [addToRecent] for each entry of [opened], first to last. *)
Definition open_all (opened : list recent_entry) (st : storage) : storage :=
  fold_left (fun st r => addToRecent (r_id r) (r_title r) (accessedAt r) st)
            opened st.

(** The calls that leave the settings item alone. *)
Definition keeps_settings (o : op) : bool :=
  match o with
  | SaveDraft _ _ _ _ | DeleteDraft _ | AddToRecent _ _ _ => true
  | SaveSettings _ | ClearAll => false
  end.

(** The calls that leave the drafts item alone. *)
Definition keeps_drafts (o : op) : bool :=
  match o with
  | SaveSettings _ | AddToRecent _ _ _ => true
  | SaveDraft _ _ _ _ | DeleteDraft _ | ClearAll => false
  end.

End Storage.

(** ** Editor: saving the draft being written *)

Module Editor.
Import JS.

(** [textarea] is the value of the textarea element, [None] while the
    element is [null]; [currentDraftId] is [None] for [null]. *)
Record state := mkState {
  textarea : option jsstring;
  currentDraftId : option jsstring
}.

(** [saveDraft()]; [now_ms] is [Date.now()] and [now_iso] the
    [new Date().toISOString()] of [Storage.saveDraft]. *)
Definition saveDraft (now_ms : Z) (now_iso : jsstring)
    (ed : state) (st : Storage.storage) : state * Storage.storage :=
  match textarea ed with
  | None => (ed, st)
  | Some content =>
      if negb (truthy (trim content)) then (ed, st)
      else
        match Markdown.extractTitle content with
        | None => (ed, st)            (* thrown before any assignment *)
        | Some title =>
            let draft_id :=
              match currentDraftId ed with
              | Some i =>
                  if truthy i then i else lit "draft_" ++ int_to_string now_ms
              | None => lit "draft_" ++ int_to_string now_ms
              end in
            ({| textarea := textarea ed; currentDraftId := Some draft_id |},
             Storage.saveDraft draft_id content (Some title) now_iso st)
        end
  end.

(** [newDraft()] *)
Definition newDraft (ed : state) : state :=
  {| textarea := match textarea ed with Some _ => Some [] | None => None end;
     currentDraftId := None |}.

(** [loadDraft(id)]; a member of [Object.prototype] has no [content], and the
    textarea shows [undefined] as text. *)
Definition loadDraft (draft_id : jsstring) (ed : state) (st : Storage.storage)
  : state :=
  match Storage.getDraft draft_id st, textarea ed with
  | Storage.GotDraft d, Some _ =>
      {| textarea := Some (Storage.content d); currentDraftId := Some draft_id |}
  | Storage.GotBuiltin _, Some _ =>
      {| textarea := Some (lit "undefined"); currentDraftId := Some draft_id |}
  | _, _ => ed
  end.

(** [getContent()] *)
Definition getContent (ed : state) : jsstring := default [] (textarea ed).

(** The id [saveDraft()] files the text under. *)
Definition draft_id_of (now_ms : Z) (ed : state) : jsstring :=
  match currentDraftId ed with
  | Some i => if truthy i then i else lit "draft_" ++ int_to_string now_ms
  | None => lit "draft_" ++ int_to_string now_ms
  end.

End Editor.

(** ** GitHub: the REST wrapper *)

Module GitHub.
Import JS Regex.

(** An [Error] object, by its message. *)
Record error := mkError { message : jsstring }.

Inductive result (A : Type) :=
| Ok (a : A)
| Thrown (e : error).
Arguments Ok {A} a.
Arguments Thrown {A} e.

(** The fields of a response body the module reads. *)
Record payload := mkPayload {
  p_message : option jsstring;
  p_content : option jsstring;
  p_sha : option jsstring;
  p_path : option jsstring
}.

(** What [response.json()] does. *)
Inductive body :=
| Json (p : payload)
| NotJson (e : error).

(** What [fetch] does: reject, or resolve with a response. *)
Inductive fetched :=
| Rejected (e : error)
| Response (status : Z) (b : body).

Record repo_config := mkConfig {
  owner : jsstring;
  repo : jsstring;
  branch : jsstring
}.

(** What the module finds around it: the token item of localStorage, the
    result of [getRepoConfig()], the network and [atob]. *)
Record env := mkEnv {
  token : option jsstring;
  config : repo_config;
  fetch : jsstring -> fetched;
  atob : jsstring -> result jsstring
}.

(** [response.ok] *)
Definition response_ok (status : Z) : bool := (200 <=? status) && (status <=? 299).

(** [apiRequest(endpoint)] *)
Definition apiRequest (E : env) (endpoint : jsstring) : result payload :=
  match token E with
  | Some t =>
      if truthy t then
        match fetch E (lit "https://api.github.com" ++ endpoint) with
        | Rejected e => Thrown e
        | Response status b =>
            if response_ok status then
              match b with
              | Json p => Ok p
              | NotJson e => Thrown e
              end
            else
              let msg := match b with
                         | Json p => p_message p
                         | NotJson _ => None
                         end in
              Thrown {| message :=
                match msg with
                | Some m =>
                    if truthy m then m
                    else lit "GitHub API error: " ++ int_to_string status
                | None => lit "GitHub API error: " ++ int_to_string status
                end |}
        end
      else Thrown {| message := lit "GitHub token not configured" |}
  | None => Thrown {| message := lit "GitHub token not configured" |}
  end.

Record file := mkFile {
  f_content : jsstring;
  f_sha : option jsstring;
  f_path : option jsstring
}.

(** The [catch] clause of [getFile]. *)
Definition on_error (e : error) : result (option file) :=
  if includes (lit "404") (message e) then Ok None else Thrown e.

(** [getFile(path)]; [Ok None] is [null]. *)
Definition getFile (E : env) (path : jsstring) : result (option file) :=
  let c := config E in
  match apiRequest E (lit "/repos/" ++ owner c ++ lit "/" ++ repo c
                      ++ lit "/contents/" ++ path ++ lit "?ref=" ++ branch c) with
  | Ok data =>
      match atob E (default (lit "undefined") (p_content data)) with
      | Ok text =>
          Ok (Some {| f_content := text; f_sha := p_sha data;
                      f_path := p_path data |})
      | Thrown e => on_error e
      end
  | Thrown e => on_error e
  end.

Definition is_hyphen (c : N) : bool := char_eqb 45 c.

(** [/[^\w\s-]/g] *)
Definition junk_re : list node :=
  [Char (fun c => negb (is_word c || is_space c || is_hyphen c))].

(** [/\s+/g] *)
Definition spaces_re : list node := [Many 1 is_space].

Record notebook := mkNotebook {
  nb_id : jsstring;
  nb_title : jsstring;
  nb_content : jsstring
}.

Section Runtime.

(** [String.prototype.toLowerCase] of the runtime. *)
Variable toLowerCase : jsstring -> jsstring.

(** The [id] that [createNotebook(title, _)] computes. *)
Definition notebook_id (title : jsstring) : jsstring :=
  substring 0 50
    (replace_all_text spaces_re (lit "-")
       (replace_all_text junk_re [] (toLowerCase title))).

(** [createNotebook(title, initialContent = '')]; [saved] is how the awaited
    [saveNotebook(id, content, title, [])] settles. *)
Definition createNotebook (title initialContent : jsstring)
    (saved : jsstring -> jsstring -> result bool) : result notebook :=
  let i := notebook_id title in
  let text :=
    if truthy initialContent then initialContent
    else lit "# " ++ title ++ [10; 10]%N ++ lit "Start writing here..." ++ [10%N] in
  match saved i text with
  | Ok _ => Ok {| nb_id := i; nb_title := title; nb_content := text |}
  | Thrown e => Thrown e
  end.

End Runtime.

(** The spec's words for the id: the characters that are kept... *)
Definition spec_kept (c : N) : bool := is_word c || is_space c || char_eqb 45 c.

(** ... each maximal run of whitespace turned into one hyphen ([in_run]
    tells that the unit before was whitespace of the current run)... *)
Fixpoint spec_hyphenate (in_run : bool) (s : jsstring) : jsstring :=
  match s with
  | [] => []
  | c :: s' =>
      if is_space c
      then if in_run then spec_hyphenate true s'
           else 45%N :: spec_hyphenate true s'
      else c :: spec_hyphenate false s'
  end.

(** ... and all of it: lowercase, delete, hyphenate, cut at 50. *)
Definition spec_slug (lower : jsstring -> jsstring) (title : jsstring) : jsstring :=
  take 50 (spec_hyphenate false (List.filter spec_kept (lower title))).

(** An environment for examples: a token is configured and the repository
    answers every request with [response]. *)
Definition answering (response : fetched) : env :=
  {| token := Some (lit "ghp_token");
     config := {| owner := lit "kirschjd"; repo := lit "Moleskine";
                  branch := lit "main" |};
     fetch := fun _ => response;
     atob := fun text => Ok text |}.

(** The body GitHub sends with status 404. *)
Definition not_found_body : payload :=
  {| p_message := Some (lit "Not Found"); p_content := None;
     p_sha := None; p_path := None |}.

(** [getToken()] *)
Definition getToken (E : env) : option jsstring := token E.

(** [setToken(token)]: a falsy token ([null], [undefined], ['']) removes the
    item. *)
Definition setToken (t : option jsstring) (E : env) : env :=
  {| token := match t with
              | Some x => if truthy x then Some x else None
              | None => None
              end;
     config := config E; fetch := fetch E; atob := atob E |}.

(** [isConfigured()]: [!!getToken()] *)
Definition isConfigured (E : env) : bool :=
  match getToken E with
  | Some t => truthy t
  | None => false
  end.

(** [testConnection()]: [None] is [{ success: true }], [Some m] is
    [{ success: false, error: m }]. *)
Definition testConnection (E : env) : option jsstring :=
  let c := config E in
  match apiRequest E (lit "/repos/" ++ owner c ++ lit "/" ++ repo c) with
  | Ok _ => None
  | Thrown e => Some (message e)
  end.

(** The bodies of the PUT and DELETE requests, before [JSON.stringify];
    a [sha] of [None] is a field that is not sent. *)
Record put_body := mkPut {
  b_message : jsstring;
  b_content : jsstring;
  b_branch : jsstring;
  b_sha : option jsstring
}.

Record delete_body := mkDelete {
  d_message : jsstring;
  d_sha : option jsstring;
  d_branch : jsstring
}.

(** What the module asks of the network. *)
Inductive request :=
| Get (url : jsstring)
| Put (url : jsstring) (b : put_body)
| Delete (url : jsstring) (b : delete_body).

(** The surroundings with the network answering whole requests; [encode]
    is [btoa(unescape(encodeURIComponent(_)))], which throws on a lone
    surrogate. *)
Record net := mkNet {
  n_token : option jsstring;
  n_config : repo_config;
  send : request -> fetched;
  n_atob : jsstring -> result jsstring;
  encode : jsstring -> result jsstring
}.

(** [apiRequest(endpoint, options)] where the options make the request
    [mk url]. *)
Definition apiRequestWith (N : net) (mk : jsstring -> request)
    (endpoint : jsstring) : result payload :=
  apiRequest {| token := n_token N; config := n_config N;
                fetch := fun url => send N (mk url); atob := n_atob N |}
             endpoint.

(** The surroundings of the calls without options, which are GET requests. *)
Definition reading (N : net) : env :=
  {| token := n_token N; config := n_config N;
     fetch := fun url => send N (Get url); atob := n_atob N |}.

(** [message || fallback] for an optional message. *)
Definition message_or (m : option jsstring) (fallback : jsstring) : jsstring :=
  match m with
  | Some x => if truthy x then x else fallback
  | None => fallback
  end.

Definition contents_endpoint (c : repo_config) (path : jsstring) : jsstring :=
  lit "/repos/" ++ owner c ++ lit "/" ++ repo c ++ lit "/contents/" ++ path.

(** The [sha] that [saveFile] finds for the file: [null] when [getFile]
    returns [null] or throws. *)
Definition existing_sha (N : net) (path : jsstring) : option jsstring :=
  match getFile (reading N) path with
  | Ok (Some f) => f_sha f
  | _ => None
  end.

(** [saveFile(path, content, message)] *)
Definition saveFile (N : net) (path content : jsstring)
    (msg : option jsstring) : result payload :=
  let c := n_config N in
  let sha := existing_sha N path in
  match encode N content with
  | Thrown e => Thrown e
  | Ok encoded =>
      let b := {| b_message := message_or msg (lit "Update " ++ path);
                  b_content := encoded;
                  b_branch := branch c;
                  b_sha := match sha with
                           | Some x => if truthy x then Some x else None
                           | None => None
                           end |} in
      apiRequestWith N (fun url => Put url b) (contents_endpoint c path)
  end.

(** [deleteFile(path, message)] *)
Definition deleteFile (N : net) (path : jsstring) (msg : option jsstring)
  : result payload :=
  let c := n_config N in
  match getFile (reading N) path with
  | Thrown e => Thrown e
  | Ok None => Thrown {| message := lit "File not found" |}
  | Ok (Some f) =>
      apiRequestWith N
        (fun url => Delete url {| d_message := message_or msg (lit "Delete " ++ path);
                                  d_sha := f_sha f;
                                  d_branch := branch c |})
        (contents_endpoint c path)
  end.

(** An entry of the notebook index, and the index. *)
Record entry := mkEntry {
  e_id : jsstring;
  e_title : jsstring;
  e_tags : list jsstring;
  createdAt : jsstring;
  e_updatedAt : jsstring
}.

Record index := mkIndex {
  notebooks : list entry;
  tags : option (list jsstring)      (* [None]: no [tags] field *)
}.

(** [JSON.parse] and [JSON.stringify(_, null, 2)] on the index file;
    [parse_index] gives [None] when the text does not parse. *)
Record codec := mkCodec {
  parse_index : jsstring -> option index;
  print_index : index -> jsstring
}.

(** [a <= b] as the default comparison of [sort] orders strings: by code
    units, a prefix first. *)
Fixpoint str_leb (a b : jsstring) : bool :=
  match a, b with
  | [], _ => true
  | _ :: _, [] => false
  | x :: a', y :: b' =>
      if (x <? y)%N then true
      else if (y <? x)%N then false
      else str_leb a' b'
  end.

Fixpoint insert_sorted (x : jsstring) (l : list jsstring) : list jsstring :=
  match l with
  | [] => [x]
  | y :: l' => if str_leb x y then x :: l else y :: insert_sorted x l'
  end.

(** [l.sort()] on an array of strings. *)
Definition sort (l : list jsstring) : list jsstring :=
  fold_right insert_sorted [] l.

(** [set.add(t)] on the elements of a [Set] in insertion order. *)
Definition set_add (l : list jsstring) (t : jsstring) : list jsstring :=
  if existsb (str_eqb t) l then l else l ++ [t].

(** [Array.from(new Set(l))] *)
Definition set_of (l : list jsstring) : list jsstring := fold_left set_add l [].

(** [index.notebooks.find(n => n.id === id)] followed by the assignments
    to the entry found; [None] when there is none. *)
Fixpoint update_first (i title : jsstring) (ts : list jsstring)
    (now : jsstring) (l : list entry) : option (list entry) :=
  match l with
  | [] => None
  | e :: l' =>
      if str_eqb (e_id e) i
      then Some ({| e_id := e_id e; e_title := title; e_tags := ts;
                    createdAt := createdAt e; e_updatedAt := now |} :: l')
      else match update_first i title ts now l' with
           | Some r => Some (e :: r)
           | None => None
           end
  end.

Definition indexPath : jsstring := lit "notebooks/_index.json".

(** The index that [updateNotebookIndex] starts from. *)
Definition read_index (N : net) (C : codec) : index :=
  match getFile (reading N) indexPath with
  | Ok (Some f) =>
      match parse_index C (f_content f) with
      | Some i => i
      | None => {| notebooks := []; tags := Some [] |}
      end
  | _ => {| notebooks := []; tags := Some [] |}
  end.

(** [updateNotebookIndex(id, title, tags)]; [now] is
    [new Date().toISOString().split('T')[0]]. *)
Definition updateNotebookIndex (N : net) (C : codec) (i title : jsstring)
    (ts : list jsstring) (now : jsstring) : result index :=
  let old := read_index N C in
  let nbs :=
    match update_first i title ts now (notebooks old) with
    | Some l => l
    | None => notebooks old
              ++ [{| e_id := i; e_title := title; e_tags := ts;
                     createdAt := now; e_updatedAt := now |}]
    end in
  let all := sort (fold_left set_add ts (set_of (default [] (tags old)))) in
  let updated := {| notebooks := nbs; tags := Some all |} in
  match saveFile N indexPath (print_index C updated)
                 (Some (lit "Update notebook index")) with
  | Ok _ => Ok updated
  | Thrown e => Thrown e
  end.

(** [saveNotebook(id, content, title, tags = [])] *)
Definition saveNotebook (N : net) (C : codec) (i content title : jsstring)
    (ts : list jsstring) (now : jsstring) : result bool :=
  match saveFile N (lit "notebooks/" ++ i ++ lit ".md") content
                 (Some (lit "Update notebook: " ++ title)) with
  | Thrown e => Thrown e
  | Ok _ =>
      match updateNotebookIndex N C i title ts now with
      | Thrown e => Thrown e
      | Ok _ => Ok true
      end
  end.

Definition not_configured : error :=
  {| message := lit "GitHub token not configured" |}.

(** The URL of the GET that [getFile] makes. *)
Definition lookup_url (N : net) (path : jsstring) : jsstring :=
  lit "https://api.github.com" ++ contents_endpoint (n_config N) path
  ++ lit "?ref=" ++ branch (n_config N).

(** For examples: a repository that has a file with the given [sha] under
    every path, or no file at all, and accepts every write. *)
Definition repository (stored : option jsstring) : net :=
  {| n_token := Some (lit "ghp_token");
     n_config := {| owner := lit "kirschjd"; repo := lit "Moleskine";
                    branch := lit "main" |};
     send := fun r =>
       match r, stored with
       | Get _, None => Response 404 (Json not_found_body)
       | Get _, Some sha =>
           Response 200 (Json {| p_message := None; p_content := Some (lit "aGk=");
                                 p_sha := Some sha; p_path := None |})
       | Put _ b, _ =>
           Response 201 (Json {| p_message := None; p_content := None;
                                 p_sha := b_sha b; p_path := None |})
       | Delete _ _, _ =>
           Response 200 (Json {| p_message := None; p_content := None;
                                 p_sha := None; p_path := None |})
       end;
     n_atob := fun text => Ok text;
     encode := fun text => Ok text |}.

(** For examples: a codec that reads every index file as [i]. *)
Definition reading_as (i : index) : codec :=
  {| parse_index := fun _ => Some i; print_index := fun _ => lit "{}" |}.

(** The order of [sort], as a relation. *)
Definition str_le (a b : jsstring) : Prop := str_leb a b = true.

End GitHub.

(** ** App: the controller *)

Module App.
Import JS.

(** What [saveToGitHub()] passes to [GitHub.saveNotebook(id, content, title,
    [])] for the editor content [content]; [None] when it returns before
    that call ("Nothing to save", or [extractTitle] throws). *)
Definition saveToGitHub_args (toLowerCase : jsstring -> jsstring)
    (content : jsstring) : option (jsstring * jsstring * jsstring) :=
  if negb (truthy (trim content)) then None
  else
    match Markdown.extractTitle content with
    | None => None
    | Some title =>
        let i := GitHub.notebook_id toLowerCase title in
        Some (if truthy i then i else lit "untitled", content, title)
    end.

(** [toggleTheme()] on a document whose [data-theme] attribute is [attr]. *)
Definition toggleTheme (attr : option jsstring) (st : Storage.storage)
  : option jsstring * Storage.storage :=
  let isDark := match attr with
                | Some v => str_eqb v (lit "dark")
                | None => false
                end in
  let newTheme := if isDark then lit "light" else lit "dark" in
  (Some newTheme,
   snd (Storage.setSetting (lit "theme") (Storage.JStr newTheme) st)).

(** [settings.theme === 'dark'] *)
Definition stored_dark (st : Storage.storage) : bool :=
  match Storage.get_property (Storage.getSettings st) (lit "theme") with
  | Storage.Own (Storage.JStr v) => str_eqb v (lit "dark")
  | _ => false
  end.

(** [applySettings()]: the [data-theme] attribute afterwards. *)
Definition applySettings (attr : option jsstring) (st : Storage.storage)
  : option jsstring :=
  if stored_dark st then Some (lit "dark") else attr.

End App.

(* ===================================================================== *)
(** * Part II: theorems                                                   *)
(* ===================================================================== *)

Section WhiteboardHistory.
Import JS Whiteboard.

Lemma slice_prefix_length {A} (l : list A) (k : Z) :
  0 <= k <= Z.of_nat (length l) ->
  Z.of_nat (length (slice 0 k l)) = k.
Proof.
  intros Hk. unfold slice, rel_index.
  replace (0 <? 0) with false by reflexivity.
  destruct (k <? 0) eqn:E; [apply Z.ltb_lt in E; lia|].
  rewrite !Z.min_l by lia.
  simpl. rewrite drop_0, length_take. lia.
Qed.

Lemma saveState_proper s url :
  pristine s \/ proper s -> canvas s = Some url -> proper (saveState s).
Proof.
  intros Hok Hc. unfold saveState. rewrite Hc.
  assert (Hlen : Z.of_nat (length (slice 0 (historyIndex s + 1) (history s)))
                 = historyIndex s + 1).
  { apply slice_prefix_length. destruct Hok as [[Hh Hi]|[Hi _]].
    - rewrite Hh, Hi. simpl. lia.
    - lia. }
  assert (Hb : 0 <= historyIndex s + 1 <= MAX_HISTORY).
  { destruct Hok as [[_ Hi]|[Hi Hm]]; unfold MAX_HISTORY in *; lia. }
  unfold proper.
  destruct (Z.of_nat (length (_ ++ [url])) >? MAX_HISTORY) eqn:E; simpl.
  - apply Z.gtb_lt in E. rewrite length_app in E. simpl in E.
    destruct (slice 0 (historyIndex s + 1) (history s)) as [|x t] eqn:Hs;
      simpl in *; [unfold MAX_HISTORY in *; lia|].
    rewrite length_app. simpl. unfold MAX_HISTORY in *. lia.
  - rewrite Z.gtb_ltb in E. apply Z.ltb_ge in E.
    rewrite length_app in *. simpl in *. lia.
Qed.

Lemma saveState_keeps s : proper s -> proper (saveState s).
Proof.
  intros H. destruct (canvas s) as [url|] eqn:Hc.
  - eapply saveState_proper; eauto.
  - unfold saveState. now rewrite Hc.
Qed.

Lemma saveState_pristine s :
  pristine s -> pristine (saveState s) \/ proper (saveState s).
Proof.
  intros H. destruct (canvas s) as [url|] eqn:Hc.
  - right. eapply saveState_proper; eauto.
  - left. unfold saveState. now rewrite Hc.
Qed.

Lemma undo_index s :
  history (fst (undo s)) = history s /\
  historyIndex (fst (undo s)) =
    if historyIndex s >? 0 then historyIndex s - 1 else historyIndex s.
Proof. unfold undo. destruct (historyIndex s >? 0); auto. Qed.

Lemma redo_index s :
  history (fst (redo s)) = history s /\
  historyIndex (fst (redo s)) =
    if historyIndex s <? Z.of_nat (length (history s)) - 1
    then historyIndex s + 1 else historyIndex s.
Proof.
  unfold redo.
  destruct (historyIndex s <? Z.of_nat (length (history s)) - 1); auto.
Qed.

Lemma undo_proper s : proper s -> proper (fst (undo s)).
Proof.
  unfold proper. destruct (undo_index s) as [-> ->].
  destruct (historyIndex s >? 0) eqn:E; [apply Z.gtb_lt in E|]; lia.
Qed.

Lemma redo_proper s : proper s -> proper (fst (redo s)).
Proof.
  unfold proper. destruct (redo_index s) as [-> ->].
  destruct (historyIndex s <? _) eqn:E; [apply Z.ltb_lt in E|]; lia.
Qed.

Lemma undo_pristine s : pristine s -> pristine (fst (undo s)).
Proof.
  unfold pristine. destruct (undo_index s) as [-> ->].
  intros [-> ->]. auto.
Qed.

Lemma redo_pristine s : pristine s -> pristine (fst (redo s)).
Proof.
  unfold pristine. destruct (redo_index s) as [-> ->].
  intros [-> ->]. auto.
Qed.

Lemma onload_history url s :
  history (onload url s) = history s
  /\ historyIndex (onload url s) = historyIndex s.
Proof. unfold onload. destruct (canvas s), (ctx s); auto. Qed.

Lemma step_proper s o : proper s -> proper (step s o).
Proof.
  intros H. destruct o as [found resized| | | |blank| |drawn|url]; simpl.
  - unfold init. destruct found; [|exact H].
    destruct resized; [|exact H]. now apply saveState_keeps.
  - now apply saveState_keeps.
  - now apply undo_proper.
  - now apply redo_proper.
  - unfold clear. destruct (ctx s); [|exact H].
    destruct (canvas s); [|exact H]. now apply saveState_keeps.
  - exact H.
  - unfold handleMouseUp. destruct (isDrawing s); [|exact H].
    destruct drawn; [|exact H]. now apply saveState_keeps.
  - unfold proper. now destruct (onload_history url s) as [-> ->].
Qed.

Lemma step_pristine s o :
  pristine s -> pristine (step s o) \/ proper (step s o).
Proof.
  intros H. destruct o as [found resized| | | |blank| |drawn|url]; simpl.
  - unfold init. destruct found; [|now left].
    destruct resized; [|now left]. now apply saveState_pristine.
  - now apply saveState_pristine.
  - left. now apply undo_pristine.
  - left. now apply redo_pristine.
  - unfold clear. destruct (ctx s); [|now left].
    destruct (canvas s); [|now left]. now apply saveState_pristine.
  - now left.
  - unfold handleMouseUp. destruct (isDrawing s); [|now left].
    destruct drawn; [|now left]. now apply saveState_pristine.
  - left. unfold pristine. now destruct (onload_history url s) as [-> ->].
Qed.

Lemma run_proper ops : forall s, proper s -> proper (run ops s).
Proof.
  induction ops as [|o ops IH]; intros s H; simpl; [exact H|].
  apply IH. now apply step_proper.
Qed.

Lemma run_pristine ops :
  forall s, pristine s -> pristine (run ops s) \/ proper (run ops s).
Proof.
  induction ops as [|o ops IH]; intros s H; simpl; [now left|].
  destruct (step_pristine s o H) as [Hp|Hp].
  - now apply IH.
  - right. now apply run_proper.
Qed.

Lemma init_found_proper url s :
  pristine s \/ proper s -> proper (init (Some url) true s).
Proof.
  intros H. unfold init. eapply saveState_proper; simpl; eauto.
Qed.

(** Every reachable state is pristine or proper. *)
Lemma reachable_ok s : reachable s -> pristine s \/ proper s.
Proof.
  intros [ops ->]. apply run_pristine. split; reflexivity.
Qed.

Lemma step_ok s o : pristine s \/ proper s -> pristine (step s o) \/ proper (step s o).
Proof.
  intros [H|H]; [now apply step_pristine|right; now apply step_proper].
Qed.

Lemma run_found ops :
  existsb found_canvas ops = true ->
  forall s, pristine s \/ proper s -> proper (run ops s).
Proof.
  induction ops as [|o ops IH]; intros He s Hs; simpl in *; [discriminate|].
  destruct (found_canvas o) eqn:Ho; simpl in He.
  - apply run_proper. destruct o as [[url|] [|]| | | | | | |]; try discriminate.
    simpl. now apply init_found_proper.
  - apply IH; [exact He|]. now apply step_ok.
Qed.

(** C1, the claim as worded, fails: when [init] does not find the canvas
    element it returns before the first snapshot, the history stays empty
    and the index stays at -1, below 0. *)
Lemma history_index_without_canvas :
  ~ (forall (found : option jsstring) (resized : bool) (ops : list op),
       let s := run ops (init found resized initial) in
       Z.of_nat (length (history s)) <= 50
       /\ 0 <= historyIndex s < Z.of_nat (length (history s))).
Proof.
  intros H.
  specialize (H None true [Undo; Redo; Clear (lit "blank"); SaveState]).
  cbv in H. destruct H as [_ [H _]]. now apply H.
Qed.

(** C1, amended: after any sequence of [init], [saveState], [undo], [redo],
    [clear] and mouse gestures from the values at load, the history holds at
    most 50 snapshots, and either no snapshot was taken yet (the history is
    empty and historyIndex = -1) or 0 <= historyIndex < history.length; the
    latter holds once an [init] has found the canvas element and run to its
    end. *)
Theorem history_bounded (ops : list op) :
  let s := run ops initial in
  Z.of_nat (length (history s)) <= 50
  /\ ((history s = [] /\ historyIndex s = -1)
      \/ 0 <= historyIndex s < Z.of_nat (length (history s)))
  /\ if existsb found_canvas ops
     then 0 <= historyIndex s < Z.of_nat (length (history s))
     else True.
Proof.
  intros s. subst s.
  assert (H0 : pristine initial) by (split; reflexivity).
  split; [|split].
  - destruct (run_pristine ops initial H0) as [[Hh _]|[_ Hm]].
    + rewrite Hh. simpl. lia.
    + exact Hm.
  - destruct (run_pristine ops initial H0) as [H|[H _]]; [now left|now right].
  - destruct (existsb found_canvas ops) eqn:He; [|exact I].
    apply (run_found ops He initial). now left.
Qed.

Lemma history_at_in_range (h : list jsstring) (i : Z) :
  0 <= i < Z.of_nat (length h) -> is_Some (history_at h i).
Proof.
  intros Hi. unfold history_at.
  destruct (i <? 0) eqn:E; [apply Z.ltb_lt in E; lia|].
  apply lookup_lt_is_Some. lia.
Qed.

(** C2: in every reachable state, [undo] lowers the index by one exactly
    when historyIndex > 0 and otherwise changes nothing; [redo] raises it by
    one exactly when historyIndex < history.length - 1 and otherwise changes
    nothing; neither touches the snapshots; and where [undo] applies, [redo]
    right after it brings the index back and loads, to paint it, the
    snapshot the index designated before. *)
Theorem undo_redo_cursor (s : state) :
  reachable s ->
  (historyIndex s > 0 -> historyIndex (fst (undo s)) = historyIndex s - 1)
  /\ (historyIndex s <= 0 -> undo s = (s, None))
  /\ (historyIndex s < Z.of_nat (length (history s)) - 1 ->
      historyIndex (fst (redo s)) = historyIndex s + 1)
  /\ (historyIndex s >= Z.of_nat (length (history s)) - 1 -> redo s = (s, None))
  /\ history (fst (undo s)) = history s
  /\ history (fst (redo s)) = history s
  /\ (historyIndex s > 0 ->
      fst (redo (fst (undo s))) = s
      /\ is_Some (history_at (history s) (historyIndex s))
      /\ snd (redo (fst (undo s))) = history_at (history s) (historyIndex s)).
Proof.
  intros Hr. apply reachable_ok in Hr.
  destruct (undo_index s) as [Hu1 Hu2]. destruct (redo_index s) as [Hr1 Hr2].
  split; [|split; [|split; [|split; [|split; [|split]]]]]; trivial.
  - intros H. rewrite Hu2. destruct (historyIndex s >? 0) eqn:E; [lia|].
    rewrite Z.gtb_ltb in E. apply Z.ltb_ge in E. lia.
  - intros H. unfold undo. destruct (historyIndex s >? 0) eqn:E; [|trivial].
    apply Z.gtb_lt in E. lia.
  - intros H. rewrite Hr2. destruct (historyIndex s <? _) eqn:E; [lia|].
    apply Z.ltb_ge in E. lia.
  - intros H. unfold redo. destruct (historyIndex s <? _) eqn:E; [|trivial].
    apply Z.ltb_lt in E. lia.
  - intros H. destruct Hr as [[_ Hi]|[Hi _]]; [lia|].
    assert (Hg : (historyIndex s >? 0) = true) by (apply Z.gtb_lt; lia).
    assert (Hlt : (historyIndex s - 1 <? Z.of_nat (length (history s)) - 1)
                  = true) by (apply Z.ltb_lt; lia).
    unfold undo. rewrite Hg. unfold redo. simpl. rewrite Hlt. simpl.
    replace (historyIndex s - 1 + 1) with (historyIndex s) by lia.
    split; [now destruct s|]. split; [|reflexivity].
    apply history_at_in_range. lia.
Qed.

(** The round trip of C2 on a canvas with two strokes drawn. *)
Lemma undo_redo_cursor_witness :
  let s := run [Init (Some (lit "blank")) true;
                MouseDown; MouseUp (Some (lit "one"));
                MouseDown; MouseUp (Some (lit "two"))] initial in
  historyIndex s = 2
  /\ historyIndex (fst (undo s)) = 1
  /\ fst (redo (fst (undo s))) = s
  /\ snd (redo (fst (undo s))) = Some (lit "two").
Proof.
  intros s.
  assert (Hr : reachable s) by (eexists; reflexivity).
  destruct (undo_redo_cursor s Hr) as (Hu & _ & _ & _ & _ & _ & Hrt).
  assert (Hi : historyIndex s = 2) by reflexivity.
  assert (Hpos : historyIndex s > 0) by (rewrite Hi; lia).
  destruct (Hrt Hpos) as (H1 & _ & H3).
  split; [exact Hi|]. split; [|split].
  - rewrite (Hu Hpos), Hi. reflexivity.
  - exact H1.
  - rewrite H3. reflexivity.
Defined.

End WhiteboardHistory.

Section RegexFacts.
Import JS Regex.

Lemma greedy_none {R} (try : nat -> option R) (min : nat) :
  forall n, (forall k, (min <= k <= n)%nat -> try k = None) ->
  greedy try min n = None.
Proof.
  induction n as [|n IH]; intros H; simpl.
  - destruct (Nat.ltb 0 min) eqn:E; [reflexivity|].
    apply Nat.ltb_ge in E. rewrite H by lia. reflexivity.
  - destruct (Nat.ltb (S n) min) eqn:E; [reflexivity|].
    apply Nat.ltb_ge in E. rewrite H by lia.
    apply IH. intros k Hk. apply H. lia.
Qed.

(** When every shorter repetition fails, the longest one decides. *)
Lemma greedy_last {R} (try : nat -> option R) (min n : nat) :
  (forall k, (min <= k < n)%nat -> try k = None) ->
  greedy try min n = if Nat.ltb n min then None else try n.
Proof.
  intros H. destruct n as [|n]; simpl.
  - destruct (Nat.ltb 0 min); [reflexivity|]. now destruct (try 0%nat).
  - destruct (Nat.ltb (S n) min) eqn:E; [reflexivity|].
    destruct (try (S n)); [reflexivity|].
    apply greedy_none. intros k Hk. apply H. lia.
Qed.

Lemma greedy_ext {R} (t1 t2 : nat -> option R) (min : nat) :
  (forall k, t1 k = t2 k) -> forall n, greedy t1 min n = greedy t2 min n.
Proof.
  intros H. induction n as [|n IH]; simpl; rewrite H; [reflexivity|].
  now rewrite IH.
Qed.

Lemma exec_prev re :
  anchor_free re = true ->
  forall pos o g prev prev' s,
    exec re pos o g prev s = exec re pos o g prev' s.
Proof.
  induction re as [|n re IH]; intros Ha pos o g prev prev' s; [reflexivity|].
  simpl in Ha. apply andb_prop in Ha as [Hn Ha]. specialize (IH Ha).
  destruct n; simpl; try discriminate.
  - destruct s as [|c s]; [reflexivity|]. destruct (p c); auto.
  - apply greedy_ext. intros k. apply IH.
  - apply IH.
  - apply IH.
  - destruct s as [|c s]; [auto|]. destruct (is_line_terminator c); auto.
Qed.

Lemma match_at_prev re prev prev' s :
  anchor_free re = true -> match_at re prev s = match_at re prev' s.
Proof. intros Ha. unfold match_at. now rewrite (exec_prev re Ha 0 0 None prev prev'). Qed.

Lemma replace_go_prev re f :
  anchor_free re = true ->
  forall s k prev prev', replace_go re f k prev s = replace_go re f k prev' s.
Proof.
  intros Ha. induction s as [|c s IH]; intros k prev prev'; simpl.
  - destruct k; [|reflexivity]. now rewrite (match_at_prev re prev prev').
  - destruct k; [|reflexivity]. now rewrite (match_at_prev re prev prev').
Qed.

(** Passing over [k] units of a match resumes the scan [k] units further. *)
Lemma replace_go_skip re f :
  anchor_free re = true ->
  forall s k prev, (k <= length s)%nat ->
    replace_go re f k prev s = replace_go re f 0 None (drop k s).
Proof.
  intros Ha. induction s as [|c s IH]; intros k prev Hk.
  - simpl in Hk. assert (k = 0%nat) as -> by lia. simpl.
    now rewrite (match_at_prev re prev None).
  - destruct k as [|k].
    + rewrite drop_0. now apply replace_go_prev.
    + simpl. apply IH. simpl in Hk. lia.
Qed.

Lemma starts_with_app d r : starts_with d (d ++ r) = true.
Proof.
  induction d as [|c d IH]; simpl; [reflexivity|].
  unfold char_eqb. now rewrite N.eqb_refl.
Qed.

Lemma starts_with_split d s :
  starts_with d s = true -> s = d ++ drop (length d) s.
Proof.
  revert s. induction d as [|c d IH]; intros s H; simpl in *.
  - now rewrite drop_0.
  - destruct s as [|x s]; [discriminate|].
    apply andb_prop in H as [Hc Hd]. apply N.eqb_eq in Hc. subst x.
    simpl. f_equal. now apply IH.
Qed.

Lemma take_while_split {A} (p : A -> bool) (l : list A) :
  l = take_while p l ++ drop (length (take_while p l)) l.
Proof.
  induction l as [|x l IH]; simpl; [reflexivity|].
  destruct (p x); simpl; [now f_equal|reflexivity].
Qed.

Lemma take_take_while {A} (p : A -> bool) (l : list A) :
  take (length (take_while p l)) l = take_while p l.
Proof.
  induction l as [|x l IH]; simpl; [reflexivity|].
  destruct (p x); simpl; [now f_equal|reflexivity].
Qed.

Lemma take_while_all {A} (p : A -> bool) (l : list A) :
  forallb p (take_while p l) = true.
Proof.
  induction l as [|x l IH]; simpl; [reflexivity|].
  destruct (p x) eqn:E; simpl; [now rewrite E|reflexivity].
Qed.

(** A run of [p] followed by a unit outside [p] is the longest run. *)
Lemma take_while_app {A} (p : A -> bool) (body : list A) (x : A) (r : list A) :
  forallb p body = true -> p x = false ->
  take_while p (body ++ x :: r) = body.
Proof.
  intros Hb Hx. induction body as [|y body IH]; simpl in *.
  - now rewrite Hx.
  - apply andb_prop in Hb as [Hy Hb]. rewrite Hy. f_equal. now apply IH.
Qed.

Lemma take_while_inside {A} (p : A -> bool) (l : list A) (k : nat) :
  (k < length (take_while p l))%nat ->
  exists x r, drop k l = x :: r /\ p x = true.
Proof.
  revert k. induction l as [|y l IH]; intros k Hk; simpl in *; [lia|].
  destruct (p y) eqn:E; simpl in Hk; [|lia].
  destruct k as [|k]; [exists y, l; auto|].
  simpl. apply IH. lia.
Qed.

Lemma greedy_some {R} (try : nat -> option R) (min : nat) (r : R) :
  forall n, greedy try min n = Some r -> exists k, try k = Some r.
Proof.
  induction n as [|n IH]; simpl.
  - destruct (Nat.ltb 0 min); [discriminate|].
    destruct (try 0%nat) eqn:E; [|discriminate]. intros [= <-]. eauto.
  - destruct (Nat.ltb (S n) min); [discriminate|].
    destruct (try (S n)) eqn:E; [intros [= <-]; eauto|]. exact IH.
Qed.

(** Once past the ")" of group 1, a match has its group. *)
Lemma exec_group re :
  forall pos o g prev s len grp,
    exec re pos o g prev s = Some (len, grp) ->
    is_Some g \/ existsb (fun n => match n with Close => true | _ => false end) re
                = true ->
    is_Some grp.
Proof.
  induction re as [|n re IH]; intros pos o g prev s len grp He Hg.
  - simpl in *. injection He as <- <-. destruct Hg as [Hg|Hg]; [exact Hg|discriminate].
  - destruct n; simpl in *.
    + destruct s as [|c s]; [discriminate|]. destruct (p c); [|discriminate]. eauto.
    + apply greedy_some in He as [k He]. eauto.
    + eauto.
    + eapply IH; [exact He|]. left. eauto.
    + destruct prev as [c|]; [destruct (is_line_terminator c); [|discriminate]|]; eauto.
    + destruct s as [|c s]; [|destruct (is_line_terminator c); [|discriminate]]; eauto.
    + destruct prev; [discriminate|]. eauto.
Qed.

Lemma search_group re :
  existsb (fun n => match n with Close => true | _ => false end) re = true ->
  forall s before prev b m g a,
    search re before prev s = Some (b, m, g, a) -> is_Some g.
Proof.
  intros Hc. induction s as [|c s IH]; intros before prev b m g a; simpl;
    unfold match_at;
    destruct (exec re 0 0 None prev _) as [[len grp]|] eqn:He.
  - intros [= <- <- <- <-]. apply exec_group in He as [[x y] ->]; eauto.
  - discriminate.
  - intros [= <- <- <- <-]. apply exec_group in He as [[x y] ->]; eauto.
  - apply IH.
Qed.

End RegexFacts.

(** *** Delimited spans *)

Section Delimited.
Import JS Regex.

Lemma exec_lits d : forall re pos o g prev s,
  anchor_free re = true ->
  exec (map (fun c => Char (char_eqb c)) d ++ re) pos o g prev s =
  if starts_with d s
  then exec re (pos + length d) o g None (drop (length d) s)
  else None.
Proof.
  induction d as [|c d IH]; intros re pos o g prev s Ha; simpl.
  - rewrite Nat.add_0_r, drop_0. now apply exec_prev.
  - destruct s as [|x s]; [reflexivity|].
    destruct (char_eqb c x); simpl; [|reflexivity].
    rewrite IH by assumption. now rewrite Nat.add_succ_r.
Qed.

Variable d : jsstring.
Variable inside : N -> bool.
Variable c0 : N.
Variable d' : jsstring.
Hypothesis d_head : d = c0 :: d'.
Hypothesis d_outside : inside c0 = false.

Lemma match_at_delimited prev s :
  match_at (delimited_re d inside) prev s = span_at d inside s.
Proof using d_head d_outside.
  unfold match_at, delimited_re, span_at.
  rewrite exec_lits by (simpl; clear; induction d; simpl; auto).
  destruct (starts_with d s) eqn:Hd; [|reflexivity].
  simpl. set (s1 := drop (length d) s). set (n := length (take_while inside s1)).
  rewrite greedy_last.
  - fold n. destruct (Nat.ltb n 1) eqn:En; [reflexivity|].
    rewrite <- (app_nil_r (map _ d)) at 1.
    rewrite exec_lits by reflexivity. simpl.
    destruct (starts_with d (drop n s1)); [|reflexivity].
    do 3 f_equal.
    replace (length d + n - length d)%nat with n by lia.
    apply take_take_while.
  - intros k Hk. fold n in Hk.
    destruct (take_while_inside inside s1 k) as (x & r & Hx & Hp); [lia|].
    rewrite <- (app_nil_r (map _ d)).
    rewrite exec_lits by reflexivity. rewrite Hx, d_head. simpl.
    unfold char_eqb. destruct (N.eqb_spec c0 x) as [->|]; [congruence|reflexivity].
Qed.

(** [span_at] finds exactly the delimited spans. *)
Lemma span_at_some s len g :
  span_at d inside s = Some (len, g) ->
  exists body rest,
    s = d ++ body ++ d ++ rest /\ body <> [] /\ forallb inside body = true
    /\ len = length (d ++ body ++ d) /\ g = Some body
    /\ rest = drop len s.
Proof using d_head d_outside.
  unfold span_at. destruct (starts_with d s) eqn:Hd; [|discriminate].
  set (s1 := drop (length d) s). set (body := take_while inside s1).
  destruct (Nat.ltb (length body) 1) eqn:En; [discriminate|].
  destruct (starts_with d (drop (length body) s1)) eqn:Hd2; [|discriminate].
  intros [= <- <-]. apply Nat.ltb_ge in En.
  exists body, (drop (length d) (drop (length body) s1)).
  assert (Hs : s = d ++ body ++ d ++ drop (length d) (drop (length body) s1)).
  { rewrite (starts_with_split d s Hd) at 1. f_equal. fold s1.
    rewrite (take_while_split inside s1) at 1. fold body. f_equal.
    now apply starts_with_split. }
  split; [exact Hs|]. split; [|split; [|split; [|split]]].
  - intros Hb. rewrite Hb in En. simpl in En. lia.
  - apply take_while_all.
  - rewrite !length_app. lia.
  - reflexivity.
  - unfold s1. rewrite !drop_drop. f_equal. lia.
Qed.

Lemma span_at_none s :
  span_at d inside s = None ->
  ~ exists body rest,
      s = d ++ body ++ d ++ rest /\ body <> [] /\ forallb inside body = true.
Proof using d_head d_outside.
  intros Hn (body & rest & Hs & Hne & Hin). revert Hn. unfold span_at.
  rewrite Hs at 1. rewrite starts_with_app.
  rewrite Hs. rewrite drop_app_length.
  assert (Ht : take_while inside (body ++ d ++ rest) = body).
  { rewrite d_head. simpl. now apply take_while_app. }
  simpl. rewrite Ht. rewrite drop_app_length, starts_with_app.
  destruct body; [congruence|]. simpl. discriminate.
Qed.

(** The global replace of the delimited expression performs that pass. *)
Lemma replace_all_delimited f shown :
  (forall body, f (d ++ body ++ d) (Some body) = shown body) ->
  forall s, replaced d inside shown s (replace_all (delimited_re d inside) f s).
Proof using d_head d_outside.
  intros Hf s. unfold replace_all. generalize (@None N) as prev.
  assert (Ha : anchor_free (delimited_re d inside) = true).
  { unfold delimited_re, anchor_free. rewrite forallb_app. simpl.
    assert (forallb (fun n => match n with LineStart | Start => false | _ => true end)
              (map (fun c => Char (char_eqb c)) d) = true) as ->
      by (clear; induction d; simpl; auto).
    reflexivity. }
  remember (length s) as n eqn:Hn. revert s Hn.
  induction n as [n IH] using lt_wf_ind. intros s Hn prev.
  destruct s as [|c s]; simpl.
  - rewrite match_at_delimited. unfold span_at. rewrite d_head. simpl.
    constructor.
  - rewrite match_at_delimited.
    destruct (span_at d inside (c :: s)) as [[len g]|] eqn:Hsp.
    + destruct (span_at_some _ _ _ Hsp) as (body & rest & Hs & Hne & Hin & Hlen & Hg & Hrest).
      destruct len as [|k].
      { rewrite d_head in Hlen. simpl in Hlen. lia. }
      rewrite replace_go_skip; [|assumption|].
      2:{ apply (f_equal (@length N)) in Hs. rewrite !length_app in *.
          simpl in *. lia. }
      change (c :: take k s) with (take (S k) (c :: s)).
      replace (take (S k) (c :: s)) with (d ++ body ++ d).
      2:{ rewrite Hs, Hlen.
          replace (d ++ body ++ d ++ rest) with ((d ++ body ++ d) ++ rest)
            by (now rewrite <- !app_assoc).
          now rewrite take_app_length. }
      rewrite Hg, Hf.
      change (drop k s) with (drop (S k) (c :: s)). rewrite <- Hrest.
      rewrite Hs. apply replaced_span; trivial.
      eapply (IH (length rest)); [|reflexivity].
      subst n. rewrite Hs. rewrite !length_app. rewrite d_head. simpl. lia.
    + apply replaced_unit; [now apply span_at_none|].
      eapply (IH (length s)); [|reflexivity]. subst n. simpl. lia.
Qed.

(** The pass determines its result. *)
Lemma replaced_functional shown s o1 :
  replaced d inside shown s o1 -> forall o2, replaced d inside shown s o2 -> o1 = o2.
Proof using d_head d_outside.
  induction 1 as [|body rest out Hne Hin Hr IH|c s out Hno Hr IH]; intros o2 H2.
  - remember (@nil N) as s eqn:Hs.
    destruct H2 as [|body2 rest2 out2 Hne2 Hin2 Hr2|c s out2 Hno2 Hr2].
    + reflexivity.
    + rewrite d_head in Hs. discriminate.
    + discriminate.
  - remember (d ++ body ++ d ++ rest) as s eqn:Hs.
    destruct H2 as [|body2 rest2 out2 Hne2 Hin2 Hr2|c s out2 Hno2 Hr2].
    + rewrite d_head in Hs. discriminate.
    + apply app_inv_head in Hs.
      assert (Hb : body2 = body).
      { rewrite d_head in Hs. simpl in Hs.
        rewrite <- (take_while_app inside body2 c0 (d' ++ rest2)) by assumption.
        rewrite Hs. now apply take_while_app. }
      subst body2. apply app_inv_head in Hs. apply app_inv_head in Hs.
      subst rest2. f_equal. now apply IH.
    + exfalso. apply Hno2. exists body, rest. auto.
  - remember (c :: s) as s0 eqn:Hs.
    destruct H2 as [|body2 rest2 out2 Hne2 Hin2 Hr2|c2 s2 out2 Hno2 Hr2].
    + discriminate.
    + exfalso. apply Hno. exists body2, rest2. split; [now symmetry|auto].
    + injection Hs as -> ->. f_equal. now apply IH.
Qed.

End Delimited.

Section MarkdownPipeline.
Import JS Regex Markdown.

Lemma block_re_delimited : block_re = delimited_re (lit "$$") not_dollar.
Proof. reflexivity. Qed.

Lemma inline_re_delimited :
  inline_re = delimited_re (lit "$") not_dollar_nor_newline.
Proof. reflexivity. Qed.

Lemma block_pass k html :
  replaced (lit "$$") not_dollar (shown k true (lit "$$")) html
    (replace_all block_re (render_math k true) html).
Proof.
  rewrite block_re_delimited.
  apply (replace_all_delimited (lit "$$") not_dollar 36%N [36%N]);
    reflexivity.
Qed.

Lemma inline_pass k html :
  replaced (lit "$") not_dollar_nor_newline (shown k false (lit "$")) html
    (replace_all inline_re (render_math k false) html).
Proof.
  rewrite inline_re_delimited.
  apply (replace_all_delimited (lit "$") not_dollar_nor_newline 36%N []);
    reflexivity.
Qed.

(** C3, the claim as worded, fails: when the page has not loaded KaTeX,
    [processMath] returns its input as it is, so a math block comes out of
    [parse] unrendered. *)
Lemma parse_without_katex_keeps_math :
  let L := {| marked := Some (fun md => lit "<p>" ++ md ++ lit "</p>");
              katex := None;
              text_to_html := fun t => t |} in
  parse L (lit "$$x$$") = lit "<p>$$x$$</p>"
  /\ ~ (exists k mid,
          katex L = Some k
          /\ replaced (lit "$$") not_dollar (shown k true (lit "$$"))
               (lit "<p>$$x$$</p>") mid
          /\ replaced (lit "$") not_dollar_nor_newline (shown k false (lit "$"))
               mid (parse L (lit "$$x$$"))).
Proof.
  split; [reflexivity|].
  intros (k & mid & Hk & _). discriminate Hk.
Qed.

(** C3, amended: when [marked] and KaTeX are both loaded, [parse] returns
    [processMath(marked.parse(input))], where [processMath] first replaces,
    from left to right, every [$$...$$] block with non-empty contents free of
    [$] by the display-mode rendering of the trimmed contents, and afterwards
    every remaining [$...$] span with non-empty contents free of [$] and of
    newlines by the inline-mode rendering; a span whose rendering throws is
    left as it is.  When KaTeX is not loaded [parse] returns
    [marked.parse(input)] unchanged, and when [marked] is not loaded it
    returns the HTML-escaped input. *)
Theorem parse_pipeline (L : libs) (input : jsstring) :
  match marked L with
  | None => parse L input = text_to_html L input
  | Some marked_parse =>
      parse L input = processMath L (marked_parse input)
      /\ match katex L with
         | None => parse L input = marked_parse input
         | Some k =>
             exists mid,
               replaced (lit "$$") not_dollar (shown k true (lit "$$"))
                 (marked_parse input) mid
               /\ replaced (lit "$") not_dollar_nor_newline
                    (shown k false (lit "$")) mid (parse L input)
         end
  end.
Proof.
  unfold parse, processMath, escapeHtml.
  destruct (marked L) as [mp|]; [|reflexivity].
  split; [reflexivity|].
  destruct (katex L) as [k|]; [|reflexivity].
  eexists. split; [apply block_pass|apply inline_pass].
Qed.

(** [extractTitle] does not throw: every match of the heading expression
    has its group. *)
Lemma extractTitle_returns (markdown : jsstring) :
  is_Some (extractTitle markdown).
Proof.
  unfold extractTitle, match_first.
  destruct (search h1_re [] None markdown) as [[[[b m] g] a]|] eqn:Hs.
  - apply search_group in Hs as [text ->]; [eauto|reflexivity].
  - destruct (filter _ _); eauto.
Qed.

End MarkdownPipeline.

Section AuthLogin.
Import JS Auth.

Lemma str_eqb_eq (a b : jsstring) : str_eqb a b = true <-> a = b.
Proof.
  revert b. induction a as [|x a IH]; intros [|y b]; simpl; split;
    try discriminate; try reflexivity.
  - intros H. apply andb_prop in H as [Hx Ha]. apply N.eqb_eq in Hx.
    apply IH in Ha. now subst.
  - intros [= -> ->]. unfold char_eqb. rewrite N.eqb_refl. now apply IH.
Qed.

(** The source's comment on the default hash holds. *)
Example sha256_moleskine : sha256 (lit "moleskine") = DEFAULT_PASSWORD_HASH.
Proof. vm_compute. reflexivity. Qed.

Example sha256_abc :
  sha256 (lit "abc") =
  lit "ba7816bf8f01cfea414140de5dae2223b00361a396177a9cb410ff61f20015ad".
Proof. vm_compute. reflexivity. Qed.

Example sha256_astral :
  sha256 ([104; 233; 108; 108; 111; 32; 0xD83D; 0xDE00])%N =
  lit "a53c56966616f0ec3ed9db7ea07a6034430149528bbaba8966c284f9373669c2".
Proof. vm_compute. reflexivity. Qed.

(** C4, the claim as worded, fails: with the empty string stored under
    [moleskine_password_hash], [login('moleskine')] returns true although the
    digest is not the stored value; [||] takes the empty string for absent. *)
Lemma login_with_empty_stored_hash :
  ~ (forall (password : jsstring) (st : storage),
       fst (login password st) = true <->
       sha256 password
       = default DEFAULT_PASSWORD_HASH (localStorage st !! HASH_KEY)).
Proof.
  intros H.
  destruct (H (lit "moleskine")
              {| localStorage := {[ HASH_KEY := [] ]}; sessionStorage := ∅ |})
    as [H1 _].
  assert (Hok : fst (login (lit "moleskine")
                  {| localStorage := {[ HASH_KEY := [] ]};
                     sessionStorage := ∅ |}) = true)
    by (vm_compute; reflexivity).
  apply H1 in Hok. rewrite sha256_moleskine in Hok.
  vm_compute in Hok. discriminate Hok.
Qed.

(** C4, amended: [login(password)] returns true if and only if the
    lowercase-hex SHA-256 digest of the password equals the stored hash,
    which is the value under the local-storage key [moleskine_password_hash]
    when one is stored and is not the empty string, and the built-in default
    hash otherwise; on success the session item [moleskine_auth] becomes
    ['true'] and nothing else changes, on failure nothing changes. *)
Theorem login_spec (password : jsstring) (st : storage) :
  let stored :=
    match localStorage st !! HASH_KEY with
    | Some [] | None => DEFAULT_PASSWORD_HASH
    | Some h => h
    end in
  let '(ok, st') := login password st in
  (ok = true <-> sha256 password = stored)
  /\ (ok = true ->
        isAuthenticated st' = true
        /\ localStorage st' = localStorage st
        /\ forall k, k <> SESSION_KEY ->
             sessionStorage st' !! k = sessionStorage st !! k)
  /\ (ok = false -> st' = st).
Proof.
  intros stored. unfold login.
  assert (Hs : getPasswordHash st = stored).
  { unfold getPasswordHash, stored.
    destruct (localStorage st !! HASH_KEY) as [[|c h]|]; reflexivity. }
  rewrite Hs.
  destruct (str_eqb (sha256 password) stored) eqn:E.
  - apply str_eqb_eq in E. repeat split; try discriminate; trivial.
    + unfold isAuthenticated. simpl. now rewrite lookup_insert_eq.
    + intros k Hk. simpl. now rewrite lookup_insert_ne.
  - repeat split; try discriminate; trivial.
    intros H. apply str_eqb_eq in H. congruence.
Qed.

End AuthLogin.

Section StorageFacts.
Import JS Storage.

Lemma str_eqb_refl (a : jsstring) : str_eqb a a = true.
Proof. now apply str_eqb_eq. Qed.

Lemma str_eqb_neq (a b : jsstring) : a <> b -> str_eqb a b = false.
Proof.
  intros H. destruct (str_eqb a b) eqn:E; [|reflexivity].
  apply str_eqb_eq in E. contradiction.
Qed.

Lemma get_set_property_same {A} (own : gmap (list N) A) name v :
  name <> proto_name -> get_property (set_property own name v) name = Own v.
Proof.
  intros Hn. unfold set_property, get_property.
  rewrite (str_eqb_neq _ _ Hn).
  destruct (own !! name); now rewrite lookup_insert_eq.
Qed.

Lemma get_set_property_other {A} (own : gmap (list N) A) name v other :
  other <> name ->
  get_property (set_property own name v) other = get_property own other.
Proof.
  intros Hn. unfold set_property, get_property.
  destruct (own !! name); [now rewrite lookup_insert_ne|].
  destruct (str_eqb name proto_name); [reflexivity|].
  now rewrite lookup_insert_ne.
Qed.

(** C5, the claim as worded, fails for the names a plain object inherits:
    [getDraft('constructor')] on an empty store returns the [Object]
    function, not [null], and a draft saved under ['__proto__'] becomes the
    prototype of the map, is not written to localStorage and is not read
    back. *)
Lemma getDraft_inherited_names :
  getDrafts empty !! lit "constructor" = None
  /\ getDraft (lit "constructor") empty <> Null
  /\ forall d,
       getDraft (lit "__proto__")
         (saveDraft (lit "__proto__") (lit "text") (Some (lit "T"))
            (lit "2025-01-01T00:00:00.000Z") empty)
       <> GotDraft d.
Proof.
  split; [reflexivity|]. split.
  - vm_compute. discriminate.
  - intros d. vm_compute. discriminate.
Qed.

(** C5, amended: for every id other than ['__proto__'], every content and
    title, [getDraft(id)] after [saveDraft(id, content, title)] returns a
    draft with that content and title (['Untitled'] when the title is
    omitted); for every id, the drafts under other ids read as before; and
    for every id that is not the name of a member of [Object.prototype],
    [getDraft(id)] returns [null] when no draft is stored under the id and
    after [deleteDraft(id)]. *)
Theorem draft_round_trip (i text : jsstring) (t : option jsstring)
    (now : jsstring) (st : storage) :
  let st' := saveDraft i text t now st in
  (i <> proto_name ->
     exists d, getDraft i st' = GotDraft d
               /\ content d = text
               /\ title d = default (lit "Untitled") t)
  /\ (forall other, other <> i -> getDraft other st' = getDraft other st)
  /\ (inherited i = false ->
        (getDrafts st !! i = None -> getDraft i st = Null)
        /\ getDraft i (deleteDraft i st) = Null).
Proof.
  intros st'. split; [|split].
  - intros Hi. eexists. unfold getDraft, st', saveDraft, getDrafts at 1. simpl.
    rewrite get_set_property_same by assumption. simpl. auto.
  - intros other Ho. unfold getDraft, st', saveDraft, getDrafts at 1. simpl.
    now rewrite get_set_property_other.
  - intros Hi. split.
    + intros Hn. unfold getDraft, get_property. now rewrite Hn, Hi.
    + unfold getDraft, deleteDraft, getDrafts at 1, get_property. simpl.
      now rewrite lookup_delete_eq, Hi.
Qed.

(** The round trip of C5 for an id made by the editor. *)
Lemma draft_round_trip_witness :
  let i := lit "draft_1730000000000" in
  let st := saveDraft (lit "draft_1") (lit "old") None (lit "t0") empty in
  i <> proto_name /\ inherited i = false
  /\ (exists d, getDraft i (saveDraft i (lit "# Hi") (Some (lit "Hi")) (lit "t1") st)
                = GotDraft d /\ content d = lit "# Hi" /\ title d = lit "Hi")
  /\ getDraft i st = Null
  /\ getDraft i (deleteDraft i st) = Null.
Proof.
  intros i st.
  assert (Hp : i <> proto_name) by (vm_compute; discriminate).
  assert (Hi : inherited i = false) by (vm_compute; reflexivity).
  assert (Hn : getDrafts st !! i = None) by (vm_compute; reflexivity).
  destruct (draft_round_trip i (lit "# Hi") (Some (lit "Hi")) (lit "t1") st)
    as (H1 & _ & H3).
  destruct (H3 Hi) as [H4 H5].
  split; [exact Hp|]. split; [exact Hi|]. split; [exact (H1 Hp)|].
  split; [exact (H4 Hn)|exact H5].
Defined.

(** C7: [setSetting(key, value)] stores the value under that key and every
    other setting reads as before, and so do the other items of the store;
    with no settings item, or one that does not parse, [getSettings()]
    returns the defaults: theme ['light'], fontSize 16, editorMode
    ['split']. *)
Theorem settings_merge (key : jsstring) (value : json) (st : storage)
    (d : option (item (gmap (list N) draft)))
    (r : option (item (list recent_entry))) :
  let st' := snd (setSetting key value st) in
  getSetting key st' = Own value
  /\ (forall other, other <> key -> getSetting other st' = getSetting other st)
  /\ fst (setSetting key value st) = getSettings st'
  /\ drafts_item st' = drafts_item st
  /\ recent_item st' = recent_item st
  /\ getSettings {| drafts_item := d; settings_item := None; recent_item := r |}
     = {[ lit "theme" := JStr (lit "light"); lit "fontSize" := JNum 16;
          lit "editorMode" := JStr (lit "split") ]}
  /\ getSettings {| drafts_item := d; settings_item := Some Unparseable;
                    recent_item := r |}
     = {[ lit "theme" := JStr (lit "light"); lit "fontSize" := JNum 16;
          lit "editorMode" := JStr (lit "split") ]}.
Proof.
  intros st'. unfold st', setSetting, saveSettings, getSetting, get_property.
  simpl. repeat split.
  - unfold getSettings at 1. simpl.
    rewrite lookup_union_l'; rewrite lookup_singleton_eq; eauto.
  - intros other Ho. unfold getSettings at 1. simpl.
    rewrite lookup_union_r; [reflexivity|]. now rewrite lookup_singleton_ne.
Qed.

End StorageFacts.

Section RecentNotebooks.
Import JS Storage.

Lemma slice_from_start {A} (n : nat) (l : list A) :
  slice 0 (Z.of_nat n) l = take n l.
Proof.
  unfold slice, rel_index. replace (0 <? 0) with false by reflexivity.
  destruct (Z.of_nat n <? 0) eqn:E; [apply Z.ltb_lt in E; lia|].
  rewrite (Z.min_l 0) by lia. simpl. rewrite drop_0, Z.sub_0_r.
  destruct (Z.min_spec (Z.of_nat n) (Z.of_nat (length l))) as [[_ ->]|[Hle ->]].
  - now rewrite Nat2Z.id.
  - rewrite Nat2Z.id. rewrite take_ge by lia. rewrite take_ge by lia.
    reflexivity.
Qed.

(** The list [addToRecent] leaves behind. *)
Lemma addToRecent_list nb_id nb_title now st :
  getRecent (addToRecent nb_id nb_title now st) =
  take 10 ({| r_id := nb_id; r_title := nb_title; accessedAt := now |}
           :: filter (fun r => str_eqb (r_id r) nb_id = false) (getRecent st)).
Proof.
  unfold addToRecent, getRecent at 1. simpl.
  now rewrite (slice_from_start 10).
Qed.

Lemma filter_ids_NoDup (p : recent_entry -> Prop) `{forall r, Decision (p r)}
    (l : list recent_entry) :
  NoDup (map r_id l) -> NoDup (map r_id (filter p l)).
Proof.
  induction l as [|r l IH]; intros Hn; [constructor|].
  simpl in Hn. apply NoDup_cons in Hn as [Hr Hn].
  rewrite filter_cons. destruct (decide (p r)); [|now apply IH].
  simpl. apply NoDup_cons. split; [|now apply IH].
  intros Hin. apply Hr. apply list_elem_of_fmap in Hin as (x & Hx & Hin).
  apply list_elem_of_fmap. exists x. split; [exact Hx|].
  apply list_elem_of_filter in Hin. tauto.
Qed.

Lemma addToRecent_NoDup nb_id nb_title now st :
  NoDup (map r_id (getRecent st)) ->
  NoDup (map r_id (getRecent (addToRecent nb_id nb_title now st))).
Proof.
  intros Hn. rewrite addToRecent_list.
  change (map r_id) with (fmap (M:=list) r_id). rewrite fmap_take.
  eapply sublist_NoDup; [|apply sublist_take].
  simpl. apply NoDup_cons. split.
  - intros Hin. apply list_elem_of_fmap in Hin as (x & Hx & Hin).
    apply list_elem_of_filter in Hin as [Hne _].
    rewrite <- Hx, str_eqb_refl in Hne. discriminate.
  - now apply filter_ids_NoDup.
Qed.

(** From an empty store, no sequence of calls leaves two entries with one
    id in the list. *)
Lemma run_recent_NoDup ops :
  forall st, NoDup (map r_id (getRecent st)) ->
             NoDup (map r_id (getRecent (run ops st))).
Proof.
  induction ops as [|o ops IH]; intros st Hn; [exact Hn|].
  simpl. apply IH. destruct o; simpl; trivial.
  - now apply addToRecent_NoDup.
  - constructor.
Qed.

(** C9: after every [addToRecent(notebook)] call, whatever calls came
    before it on a store that started empty, the list holds at most 10
    entries, no two entries share an id, and the first entry is the notebook
    just added; the entries behind it are the earlier ones without that id,
    in their order, so a notebook added again moves to the front. *)
Theorem recent_invariant (ops : list op) (nb_id nb_title now : jsstring) :
  let before := getRecent (run ops empty) in
  let after := getRecent (addToRecent nb_id nb_title now (run ops empty)) in
  (length after <= 10)%nat
  /\ NoDup (map r_id after)
  /\ head after = Some {| r_id := nb_id; r_title := nb_title; accessedAt := now |}
  /\ tail after = take 9 (filter (fun r => r_id r <> nb_id) before).
Proof.
  intros before after. split; [|split; [|split]].
  - unfold after. rewrite addToRecent_list. rewrite length_take. lia.
  - apply addToRecent_NoDup. apply run_recent_NoDup. constructor.
  - unfold after. now rewrite addToRecent_list.
  - unfold after. rewrite addToRecent_list. simpl. f_equal.
    apply list_filter_iff. intros r. split.
    + intros H Heq. rewrite Heq, str_eqb_refl in H. discriminate.
    + intros H. now apply str_eqb_neq.
Qed.

End RecentNotebooks.

Section EditorDrafts.
Import JS Editor.

Lemma drop_while_all {A} (p : A -> bool) (l : list A) :
  forallb p l = true -> drop_while p l = [].
Proof.
  induction l as [|x l IH]; simpl; [reflexivity|].
  intros H. apply andb_prop in H as [Hx Hl]. rewrite Hx. now apply IH.
Qed.

Lemma trim_blank (s : jsstring) : forallb is_space s = true -> trim s = [].
Proof. intros H. unfold trim. now rewrite (drop_while_all _ _ H). Qed.

(** C10: when the textarea holds nothing but whitespace (the empty text
    included), [saveDraft()] returns before it touches anything: the editor
    keeps its draft id and the store is unchanged. *)
Theorem saveDraft_blank (now_ms : Z) (now_iso : jsstring) (ed : state)
    (st : Storage.storage) (text : jsstring) :
  textarea ed = Some text ->
  forallb is_space text = true ->
  saveDraft now_ms now_iso ed st = (ed, st).
Proof.
  intros Ht Hb. unfold saveDraft. rewrite Ht, (trim_blank _ Hb). reflexivity.
Qed.

(** C10 at a textarea of spaces, a tab and a newline, with a draft already
    stored. *)
Lemma saveDraft_blank_witness :
  let ed := {| textarea := Some [32; 9; 10; 160]%N; currentDraftId := None |} in
  let st := Storage.saveDraft (lit "draft_1") (lit "old") None (lit "t0")
              Storage.empty in
  saveDraft 1730000000000 (lit "t1") ed st = (ed, st).
Proof.
  intros ed st.
  apply (saveDraft_blank 1730000000000 (lit "t1") ed st [32; 9; 10; 160]%N);
    reflexivity.
Defined.

End EditorDrafts.

Section GitHubFiles.
Import JS GitHub.

(** C6 does not hold of the code.  [getFile] looks for the text "404" in the
    error message, but [apiRequest] puts the status into the message only
    when the body carries no message of its own.  For a missing file GitHub
    answers 404 with the message "Not Found": [getFile] throws that error
    instead of returning [null].  A failure of another status whose message
    happens to contain "404" is reported as a missing file. *)
Theorem getFile_status_404 :
  getFile (answering (Response 404 (Json not_found_body))) (lit "notebooks/a.md")
    = Thrown {| message := lit "Not Found" |}
  /\ getFile (answering (Response 404 (NotJson {| message := lit "no body" |})))
       (lit "notebooks/a.md")
     = Ok None
  /\ getFile (answering (Response 500
                (Json {| p_message := Some (lit "shard 404 is down");
                         p_content := None; p_sha := None; p_path := None |})))
       (lit "notebooks/a.md")
     = Ok None.
Proof. repeat split; vm_compute; reflexivity. Qed.

(** What decides between [null] and a rethrow is the message alone. *)
Lemma getFile_null_iff (E : env) (path : jsstring) :
  getFile E path = Ok None <->
  exists e, includes (lit "404") (message e) = true
            /\ (apiRequest E (lit "/repos/" ++ owner (config E) ++ lit "/"
                              ++ repo (config E) ++ lit "/contents/" ++ path
                              ++ lit "?ref=" ++ branch (config E)) = Thrown e
                \/ exists data,
                     apiRequest E (lit "/repos/" ++ owner (config E) ++ lit "/"
                                   ++ repo (config E) ++ lit "/contents/" ++ path
                                   ++ lit "?ref=" ++ branch (config E)) = Ok data
                     /\ atob E (default (lit "undefined") (p_content data))
                        = Thrown e).
Proof.
  unfold getFile. destruct (apiRequest E _) as [data|e] eqn:Ha.
  - destruct (atob E _) as [text|e] eqn:Hb.
    + split; [discriminate|]. intros (e & _ & [H|(d0 & H & H')]).
      * discriminate.
      * injection H as <-. rewrite Hb in H'. discriminate.
    + unfold on_error. destruct (includes _ (message e)) eqn:Hi.
      * split; [|reflexivity]. intros _. exists e. split; [exact Hi|].
        right. exists data. auto.
      * split; [discriminate|]. intros (e' & Hi' & [H|(d0 & H & H')]).
        -- discriminate.
        -- injection H as <-. rewrite Hb in H'. injection H' as <-. congruence.
  - unfold on_error. destruct (includes _ (message e)) eqn:Hi.
    + split; [|reflexivity]. intros _. exists e. auto.
    + split; [discriminate|]. intros (e' & Hi' & [H|(d0 & H & _)]).
      * injection H as <-. congruence.
      * discriminate.
Qed.

End GitHubFiles.

Section NotebookSlug.
Import JS Regex GitHub.

Lemma match_at_char p prev s :
  match_at [Char p] prev s =
  match s with
  | c :: _ => if p c then Some (1%nat, None) else None
  | [] => None
  end.
Proof. destruct s as [|c s]; [reflexivity|]. unfold match_at. simpl. now destruct (p c). Qed.

(** Deleting the matches of a one-unit class is a filter. *)
Lemma replace_all_char_delete p s :
  replace_all_text [Char p] [] s = List.filter (fun c => negb (p c)) s.
Proof.
  unfold replace_all_text, replace_all. generalize (@None N) as prev.
  induction s as [|c s IH]; intros prev; [reflexivity|].
  cbn [replace_go]. rewrite match_at_char. simpl.
  destruct (p c); simpl; now rewrite IH.
Qed.

Lemma match_at_many p prev s :
  match_at [Many 1 p] prev s =
  match length (take_while p s) with
  | O => None
  | S k => Some (S k, None)
  end.
Proof.
  unfold match_at. cbn [exec].
  destruct (length (take_while p s)); reflexivity.
Qed.

(** Replacing the runs of a class by one text: at a fresh position, and
    while the rest of a run is passed over. *)
Lemma replace_all_runs s :
  forall prev,
    replace_go spaces_re (fun _ _ => [45%N]) 0 prev s = spec_hyphenate false s
    /\ replace_go spaces_re (fun _ _ => [45%N])
         (length (take_while is_space s)) prev s
       = spec_hyphenate true s.
Proof.
  induction s as [|c s IH]; intros prev.
  - split; reflexivity.
  - assert (H0 : replace_go spaces_re (fun _ _ => [45%N]) 0 prev (c :: s)
                 = spec_hyphenate false (c :: s)).
    { cbn [replace_go]. unfold spaces_re. rewrite match_at_many.
      cbn [take_while spec_hyphenate]. destruct (is_space c) eqn:Hc.
      - cbn [length]. simpl. f_equal. apply IH.
      - simpl. f_equal. apply IH. }
    split; [exact H0|].
    cbn [take_while]. destruct (is_space c) eqn:Hc.
    + cbn [length replace_go spec_hyphenate]. rewrite Hc. apply IH.
    + cbn [length]. rewrite H0. cbn [spec_hyphenate]. now rewrite Hc.
Qed.

Lemma substring_from_start (n : nat) (s : jsstring) :
  substring 0 (Z.of_nat n) s = take n s.
Proof.
  unfold substring. rewrite (Z.max_l 0 0) by lia.
  rewrite (Z.min_l 0) by lia. rewrite (Z.max_l (Z.of_nat n)) by lia.
  rewrite (Z.min_l 0) by lia. rewrite Z.max_r by lia.
  simpl. rewrite drop_0, Z.sub_0_r.
  destruct (Z.min_spec (Z.of_nat n) (Z.of_nat (length s))) as [[_ ->]|[Hle ->]].
  - now rewrite Nat2Z.id.
  - rewrite Nat2Z.id. rewrite take_ge by lia. rewrite take_ge by lia.
    reflexivity.
Qed.

(** C8: the id that [createNotebook] computes is the lowercased title with
    every character deleted that is not a word character, whitespace or a
    hyphen, each maximal run of whitespace replaced by one hyphen, and the
    result cut to its first 50 characters; it is the id of the notebook
    returned. *)
Theorem notebook_id_is_slug (toLowerCase : jsstring -> jsstring)
    (title initialContent : jsstring)
    (saved : jsstring -> jsstring -> result bool) :
  notebook_id toLowerCase title = spec_slug toLowerCase title
  /\ (length (notebook_id toLowerCase title) <= 50)%nat
  /\ match createNotebook toLowerCase title initialContent saved with
     | Ok nb => nb_id nb = spec_slug toLowerCase title /\ nb_title nb = title
     | Thrown _ => True
     end.
Proof.
  assert (H : notebook_id toLowerCase title = spec_slug toLowerCase title).
  { unfold notebook_id, spec_slug.
    rewrite (substring_from_start 50). f_equal.
    unfold junk_re. rewrite replace_all_char_delete.
    unfold replace_all_text, replace_all.
    rewrite (proj1 (replace_all_runs _ None)). f_equal.
    apply filter_ext. intros c. unfold spec_kept, is_hyphen.
    now rewrite negb_involutive. }
  split; [exact H|]. split.
  - rewrite H. unfold spec_slug. rewrite length_take. lia.
  - unfold createNotebook. destruct (saved _ _); [|exact I].
    simpl. auto.
Qed.

End NotebookSlug.

Section Examples.
Import JS Regex Markdown.

Example parse_blocks_then_spans :
  parse page (lit "a $$ x+y $$ b $z$ c $$$$ $ $q$$w$$")
  = lit "a <D>x+y</> b <I>z</> c $$$<I></> $q<D>w</>".
Proof. vm_compute. reflexivity. Qed.

Example parse_newline_in_span :
  parse page [36; 97; 10; 98; 36; 32; 36; 36; 97; 10; 98; 36; 36]%N
  = [36; 97; 10; 98; 36; 32]%N ++ lit "<D>" ++ [97; 10; 98]%N ++ lit "</>".
Proof. vm_compute. reflexivity. Qed.

Example extractTitle_heading :
  extractTitle (lit "intro" ++ [10%N] ++ lit "#   The Title  " ++ [10%N] ++ lit "body")
  = Some (lit "The Title").
Proof. vm_compute. reflexivity. Qed.

Example extractTitle_first_line :
  extractTitle ([10; 32; 10]%N ++ lit "##no space" ++ [10%N] ++ lit "more")
  = Some (lit "no space").
Proof. vm_compute. reflexivity. Qed.

Example extractTitle_blank : extractTitle (lit "   ") = Some (lit "Untitled").
Proof. vm_compute. reflexivity. Qed.

Example notebook_id_example :
  GitHub.notebook_id (fun t => t) (lit "my  first" ++ [9%N] ++ lit "note: a-b c!")
  = lit "my-first-note-a-b-c".
Proof. vm_compute. reflexivity. Qed.

Example int_to_string_examples :
  map int_to_string [0; 7; 10; 404; 1730000000000; -45]
  = map lit ["0"; "7"; "10"; "404"; "1730000000000"; "-45"]%string.
Proof. vm_compute. reflexivity. Qed.

End Examples.

(* ===================================================================== *)
(** * Part III: further properties of the code                            *)
(* ===================================================================== *)

Section WhiteboardSnapshots.
Import JS Whiteboard.

Lemma slice_prefix_take {A} (l : list A) (k : Z) :
  0 <= k <= Z.of_nat (length l) -> slice 0 k l = take (Z.to_nat k) l.
Proof.
  intros Hk. unfold slice, rel_index.
  replace (0 <? 0) with false by reflexivity.
  destruct (k <? 0) eqn:E; [apply Z.ltb_lt in E; lia|].
  rewrite !Z.min_l by lia. simpl. rewrite drop_0.
  f_equal. lia.
Qed.

(** X1: in a reachable state with a canvas, [saveState()] leaves the cursor
    on the newest snapshot, which is the canvas as it is now; the snapshots
    that [undo] had stepped back from are gone, so [redo()] right after it
    does nothing. *)
Theorem saveState_newest (s : state) (url : jsstring) :
  reachable s -> canvas s = Some url ->
  let s' := saveState s in
  historyIndex s' = Z.of_nat (length (history s')) - 1
  /\ last (history s') = Some url
  /\ redo s' = (s', None).
Proof.
  intros Hr Hc s'. apply reachable_ok in Hr.
  assert (Hb : 0 <= historyIndex s + 1 <= Z.of_nat (length (history s))).
  { destruct Hr as [[Hh Hi]|[Hi _]]; [rewrite Hh, Hi; simpl|]; lia. }
  assert (Hlen : Z.of_nat (length (slice 0 (historyIndex s + 1) (history s)))
                 = historyIndex s + 1) by now apply slice_prefix_length.
  assert (H : historyIndex s' = Z.of_nat (length (history s')) - 1
              /\ last (history s') = Some url).
  { unfold s', saveState. rewrite Hc.
    destruct (Z.of_nat (length (_ ++ [url])) >? MAX_HISTORY) eqn:E; simpl.
    - destruct (slice 0 (historyIndex s + 1) (history s)) as [|x t] eqn:Hs.
      + simpl in E. discriminate.
      + simpl in *. rewrite length_app. simpl. split; [lia|].
        apply last_snoc.
    - rewrite length_app. simpl. split; [lia|]. apply last_snoc. }
  destruct H as [Hi Hl]. split; [exact Hi|]. split; [exact Hl|].
  unfold redo. rewrite Hi.
  replace (_ <? _) with false; [reflexivity|].
  symmetry. apply Z.ltb_ge. lia.
Qed.

Lemma saveState_newest_witness :
  let s := run [Init (Some (lit "blank")) true; MouseDown;
                MouseUp (Some (lit "one")); Undo; ImageLoaded (lit "blank")]
               initial in
  let s' := saveState s in
  historyIndex s = 0 /\ history s' = [lit "blank"; lit "blank"]
  /\ redo s' = (s', None).
Proof.
  intros s s'.
  assert (Hr : reachable s) by (eexists; reflexivity).
  destruct (saveState_newest s (lit "blank") Hr eq_refl) as (_ & _ & H).
  split; [reflexivity|]. split; [reflexivity|]. exact H.
Defined.

(** X2: in a reachable state with a canvas, [saveState()] keeps the
    snapshots up to the cursor and appends the canvas; when the cursor was
    on the 50th snapshot the oldest one is dropped instead, so the list
    never grows past 50. *)
Theorem saveState_evicts_oldest (s : state) (url : jsstring) :
  reachable s -> canvas s = Some url ->
  history (saveState s) =
    (if historyIndex s =? 49 then drop 1 (history s)
     else take (Z.to_nat (historyIndex s + 1)) (history s)) ++ [url]
  /\ Z.of_nat (length (history (saveState s))) = Z.min (historyIndex s + 2) 50.
Proof.
  intros Hr Hc. apply reachable_ok in Hr.
  assert (Hb : 0 <= historyIndex s + 1 <= Z.of_nat (length (history s))
               /\ historyIndex s + 1 <= 50).
  { destruct Hr as [[Hh Hi]|[Hi Hm]]; unfold MAX_HISTORY in *;
      [rewrite Hh, Hi; simpl|]; lia. }
  destruct Hb as [Hb Hm].
  unfold saveState. rewrite Hc. rewrite slice_prefix_take by exact Hb.
  set (kept := take (Z.to_nat (historyIndex s + 1)) (history s)).
  assert (Hk : Z.of_nat (length kept) = historyIndex s + 1).
  { unfold kept. rewrite length_take. lia. }
  rewrite length_app. simpl. unfold MAX_HISTORY.
  destruct (historyIndex s =? 49) eqn:E.
  - apply Z.eqb_eq in E.
    replace (Z.of_nat (length kept + 1) >? 50) with true
      by (symmetry; apply Z.gtb_lt; lia).
    simpl. assert (Hfull : kept = history s).
    { unfold kept. apply take_ge. destruct Hr as [[_ Hi]|[Hi Hx]];
        unfold MAX_HISTORY in *; lia. }
    rewrite Hfull in *. destruct (history s) as [|x t]; [simpl in Hk; lia|].
    simpl. rewrite drop_0. split; [reflexivity|].
    rewrite length_app. simpl in *. lia.
  - apply Z.eqb_neq in E.
    replace (Z.of_nat (length kept + 1) >? 50) with false.
    + simpl. split; [reflexivity|]. rewrite length_app. simpl. lia.
    + symmetry. rewrite Z.gtb_ltb. apply Z.ltb_ge. lia.
Qed.

Lemma saveState_evicts_oldest_witness :
  let s := run (Init (Some (lit "a")) true :: MouseDown :: MouseUp (Some (lit "b"))
                :: repeat SaveState 48) initial in
  historyIndex s = 49
  /\ history (saveState s) = drop 1 (history s) ++ [lit "b"]
  /\ head (history s) = Some (lit "a")
  /\ length (history (saveState s)) = 50%nat.
Proof.
  intros s.
  assert (Hr : reachable s) by (eexists; reflexivity).
  destruct (saveState_evicts_oldest s (lit "b") Hr eq_refl) as [H1 H2].
  split; [reflexivity|]. split; [exact H1|]. split; [reflexivity|].
  apply Nat2Z.inj. rewrite H2. reflexivity.
Defined.

(** X3: [undo()] called [n] times in a row from an index that is not
    negative lowers it by [n] but never below 0, the oldest snapshot, and
    leaves the snapshots as they are. *)
Theorem undo_times_index (n : nat) (s : state) :
  0 <= historyIndex s ->
  historyIndex (undo_times n s) = Z.max (historyIndex s - Z.of_nat n) 0
  /\ history (undo_times n s) = history s.
Proof.
  revert s. induction n as [|n IH]; intros s Hi.
  - simpl. split; [lia|reflexivity].
  - cbn [undo_times]. destruct (undo_index s) as [Hh Hx].
    assert (H0 : 0 <= historyIndex (fst (undo s))).
    { rewrite Hx. destruct (historyIndex s >? 0) eqn:E; [apply Z.gtb_lt in E|]; lia. }
    destruct (IH _ H0) as [-> ->]. split; [|exact Hh].
    rewrite Hx. destruct (historyIndex s >? 0) eqn:E.
    + apply Z.gtb_lt in E. lia.
    + rewrite Z.gtb_ltb in E. apply Z.ltb_ge in E. lia.
Qed.

Lemma undo_times_index_witness :
  let s := run [Init (Some (lit "a")) true; SaveState; SaveState] initial in
  historyIndex s = 2
  /\ historyIndex (undo_times 1 s) = 1
  /\ historyIndex (undo_times 5 s) = 0.
Proof.
  intros s. assert (Hi : 0 <= historyIndex s) by (vm_compute; discriminate).
  split; [reflexivity|]. split.
  - rewrite (proj1 (undo_times_index 1 s Hi)). reflexivity.
  - rewrite (proj1 (undo_times_index 5 s Hi)). reflexivity.
Defined.

(** X4: in a reachable state where [redo()] applies, [undo()] right after
    it gives the state back and loads the snapshot the cursor was on. *)
Theorem redo_undo_cursor (s : state) :
  reachable s ->
  historyIndex s < Z.of_nat (length (history s)) - 1 ->
  fst (undo (fst (redo s))) = s
  /\ is_Some (history_at (history s) (historyIndex s))
  /\ snd (undo (fst (redo s))) = history_at (history s) (historyIndex s).
Proof.
  intros Hr Hlt. apply reachable_ok in Hr.
  destruct Hr as [[Hh Hi]|[Hi _]]; [rewrite Hh in Hlt; simpl in Hlt; lia|].
  unfold redo. replace (_ <? _) with true by (symmetry; apply Z.ltb_lt; lia).
  unfold undo. simpl.
  replace (historyIndex s + 1 >? 0) with true by (symmetry; apply Z.gtb_lt; lia).
  simpl. replace (historyIndex s + 1 - 1) with (historyIndex s) by lia.
  split; [now destruct s|]. split; [|reflexivity].
  apply history_at_in_range. lia.
Qed.

Lemma redo_undo_cursor_witness :
  let s := run [Init (Some (lit "a")) true; SaveState; Undo] initial in
  historyIndex s = 0 /\ fst (undo (fst (redo s))) = s
  /\ snd (undo (fst (redo s))) = Some (lit "a").
Proof.
  intros s. assert (Hr : reachable s) by (eexists; reflexivity).
  assert (Hlt : historyIndex s < Z.of_nat (length (history s)) - 1)
    by (vm_compute; reflexivity).
  destruct (redo_undo_cursor s Hr Hlt) as (H1 & _ & H3).
  split; [reflexivity|]. split; [exact H1|]. rewrite H3. reflexivity.
Defined.

(** X5: in a reachable state, whenever [undo()], [redo()] or
    [redrawFromHistory()] sets an [img.src], it is a snapshot of the
    history, never [undefined]. *)
Theorem loads_are_snapshots (s : state) :
  reachable s ->
  (historyIndex s > 0 ->
     exists url, snd (undo s) = Some url /\ url ∈ history s)
  /\ (historyIndex s < Z.of_nat (length (history s)) - 1 ->
        exists url, snd (redo s) = Some url /\ url ∈ history s)
  /\ (redrawFromHistory s = None
      \/ exists url, redrawFromHistory s = Some (Some url) /\ url ∈ history s).
Proof.
  intros Hr. apply reachable_ok in Hr.
  assert (Hat : forall i, 0 <= i < Z.of_nat (length (history s)) ->
                  exists url, history_at (history s) i = Some url
                              /\ url ∈ history s).
  { intros i Hi. destruct (history_at_in_range (history s) i Hi) as [url Hu].
    exists url. split; [exact Hu|]. unfold history_at in Hu.
    destruct (i <? 0); [discriminate|]. eapply list_elem_of_lookup_2; eauto. }
  split; [|split].
  - intros Hi. destruct Hr as [[_ Hx]|[Hx _]]; [lia|].
    unfold undo. replace (_ >? 0) with true by (symmetry; apply Z.gtb_lt; lia).
    simpl. apply Hat. lia.
  - intros Hi. destruct Hr as [[Hh Hx]|[Hx _]];
      [rewrite Hh in Hi; simpl in Hi; lia|].
    unfold redo. replace (_ <? _) with true by (symmetry; apply Z.ltb_lt; lia).
    simpl. apply Hat. lia.
  - unfold redrawFromHistory. destruct (historyIndex s <? 0) eqn:E; [now left|].
    right. apply Z.ltb_ge in E. destruct Hr as [[_ Hx]|[Hx _]]; [lia|].
    destruct (Hat (historyIndex s) Hx) as (url & Hu & Hin).
    exists url. rewrite Hu. auto.
Qed.

Lemma loads_are_snapshots_witness :
  let s := run [Init (Some (lit "a")) true; MouseDown; MouseUp (Some (lit "b"))]
               initial in
  snd (undo s) = Some (lit "a")
  /\ redrawFromHistory s = Some (Some (lit "b")).
Proof.
  intros s. assert (Hr : reachable s) by (eexists; reflexivity).
  destruct (loads_are_snapshots s Hr) as (H1 & _ & H3).
  split.
  - destruct H1 as (url & Hu & _); [vm_compute; reflexivity|].
    rewrite Hu. f_equal. assert (Hx : snd (undo s) = Some (lit "a")) by reflexivity.
    rewrite Hu in Hx. now injection Hx.
  - destruct H3 as [H3|(url & Hu & _)]; [discriminate H3|].
    rewrite Hu. assert (Hx : redrawFromHistory s = Some (Some (lit "b")))
      by reflexivity.
    rewrite Hu in Hx. exact Hx.
Defined.

End WhiteboardSnapshots.

Section AuthSessions.
Import JS Auth.

Lemma hex_byte_shape (b : N) :
  (b < 256)%N ->
  length (padStart 2 48%N (to_hex b)) = 2%nat
  /\ forallb is_lower_hex (padStart 2 48%N (to_hex b)) = true.
Proof.
  intros Hb.
  assert (Hall : forallb (fun x => Nat.eqb (length (padStart 2 48%N (to_hex x))) 2
                           && forallb is_lower_hex (padStart 2 48%N (to_hex x)))
                   (map N.of_nat (seq 0 256)) = true)
    by (vm_compute; reflexivity).
  rewrite forallb_forall in Hall.
  assert (Hin : In b (map N.of_nat (seq 0 256))).
  { apply in_map_iff. exists (N.to_nat b). split; [apply N2Nat.id|].
    apply in_seq. lia. }
  destruct (andb_prop _ _ (Hall b Hin)) as [H1 H2].
  split; [now apply Nat.eqb_eq|exact H2].
Qed.

Lemma digest_shape (msg : list N) :
  length (Sha256.digest msg) = 32%nat
  /\ Forall (fun b => (b < 256)%N) (Sha256.digest msg).
Proof.
  unfold Sha256.digest.
  destruct (Sha256.blocks _ _ _) as [[[[[[[a b] c] d] e] f] g] h].
  split; [reflexivity|]. cbn.
  repeat (apply Forall_cons; split;
          [change 255%N with (N.ones 8); rewrite N.land_ones;
           apply N.mod_lt; discriminate|]).
  constructor.
Qed.

Lemma hex_concat_shape (bytes : list N) :
  Forall (fun b => (b < 256)%N) bytes ->
  length (concat (map (fun b => padStart 2 48%N (to_hex b)) bytes))
    = (2 * length bytes)%nat
  /\ forallb is_lower_hex
        (concat (map (fun b => padStart 2 48%N (to_hex b)) bytes)) = true.
Proof.
  induction 1 as [|b bytes Hb _ [IH1 IH2]]; [split; reflexivity|].
  destruct (hex_byte_shape b Hb) as [H1 H2]. simpl.
  rewrite length_app, forallb_app, H1, H2, IH1, IH2. split; [lia|reflexivity].
Qed.

Lemma sha256_shape (message : jsstring) :
  length (sha256 message) = 64%nat
  /\ forallb is_lower_hex (sha256 message) = true.
Proof.
  unfold sha256.
  destruct (digest_shape (Sha256.utf8_encode message)) as [Hl Hb].
  destruct (hex_concat_shape _ Hb) as [H1 H2]. rewrite H1, Hl. auto.
Qed.

(** X6: for every message, [sha256(message)] is a string of 64 characters,
    each one of [0-9a-f]. *)
Theorem sha256_hex_shape (message : jsstring) :
  length (sha256 message) = 64%nat
  /\ forallb is_lower_hex (sha256 message) = true.
Proof. apply sha256_shape. Qed.

Lemma login_after_setPassword (p q : jsstring) (st : storage) :
  fst (login q (snd (setPassword p st))) = true <-> sha256 q = sha256 p.
Proof.
  assert (Hs : getPasswordHash (snd (setPassword p st)) = sha256 p).
  { unfold getPasswordHash, setPassword. simpl. rewrite lookup_insert_eq.
    destruct (sha256 p) eqn:E; [|reflexivity].
    pose proof (proj1 (sha256_shape p)) as Hl. rewrite E in Hl. discriminate. }
  unfold login. rewrite Hs.
  destruct (str_eqb (sha256 q) (sha256 p)) eqn:E; simpl.
  - apply str_eqb_eq in E. tauto.
  - split; [discriminate|]. intros H. apply str_eqb_eq in H. congruence.
Qed.

(** X7: after [setPassword(p)], [login(q)] returns true exactly for the
    passwords [q] with the digest of [p], [p] itself among them, and the
    default password no longer opens the gate unless it has that digest. *)
Theorem setPassword_then_login (p q : jsstring) (st : storage) :
  let st' := snd (setPassword p st) in
  (fst (login q st') = true <-> sha256 q = sha256 p)
  /\ fst (login p st') = true
  /\ sessionStorage st' = sessionStorage st.
Proof.
  intros st'. split; [apply login_after_setPassword|].
  split; [now apply login_after_setPassword|reflexivity].
Qed.

(** X8: the session: a successful [login] makes [requireAuth()] pass, a
    failed one changes nothing (and so does not end a session that was
    open), and after [logout()] [requireAuth()] sends the browser to
    [index.html], while the stored password hash stays. *)
Theorem session_lifecycle (password : jsstring) (st : storage) :
  (fst (login password st) = true ->
     requireAuth (snd (login password st)) = (true, None))
  /\ (fst (login password st) = false ->
        requireAuth (snd (login password st)) = requireAuth st)
  /\ requireAuth (logout st) = (false, Some (lit "index.html"))
  /\ requireAuth (logout (snd (login password st)))
     = (false, Some (lit "index.html"))
  /\ localStorage (logout st) = localStorage st.
Proof.
  assert (Hout : forall s, requireAuth (logout s) = (false, Some (lit "index.html"))).
  { intros s. unfold requireAuth, isAuthenticated, logout. simpl.
    now rewrite lookup_delete_eq. }
  split; [|split; [|split; [|split]]]; auto.
  - unfold login. destruct (str_eqb _ _); [|discriminate]. intros _.
    unfold requireAuth, isAuthenticated. simpl. now rewrite lookup_insert_eq.
  - unfold login. destruct (str_eqb _ _); [discriminate|reflexivity].
Qed.

Lemma session_lifecycle_witness :
  let st := {| localStorage := ∅; sessionStorage := ∅ |} in
  requireAuth st = (false, Some (lit "index.html"))
  /\ requireAuth (snd (login (lit "moleskine") st)) = (true, None)
  /\ requireAuth (snd (login (lit "guess") (snd (login (lit "moleskine") st))))
     = (true, None).
Proof.
  intros st.
  assert (H1 : fst (login (lit "moleskine") st) = true) by (vm_compute; reflexivity).
  assert (H2 : fst (login (lit "guess") (snd (login (lit "moleskine") st))) = false)
    by (vm_compute; reflexivity).
  destruct (session_lifecycle (lit "moleskine") st) as (Ha & _).
  destruct (session_lifecycle (lit "guess") (snd (login (lit "moleskine") st)))
    as (_ & Hb & _).
  split; [reflexivity|]. split; [exact (Ha H1)|].
  rewrite (Hb H2). exact (Ha H1).
Defined.

(** X9: the login form refuses an empty password field without trying it,
    whatever hash is stored: after [setPassword('')] the form cannot be
    passed with the password that [login('')] accepts.  For any other text
    the form lets in exactly when [login] says so. *)
Theorem submit_empty_password (password : jsstring) (st : storage) :
  submit [] st = (Refused (lit "Please enter a password"), st)
  /\ fst (login [] (snd (setPassword [] st))) = true
  /\ submit [] (snd (setPassword [] st))
     = (Refused (lit "Please enter a password"), snd (setPassword [] st))
  /\ (password <> [] ->
        (fst (submit password st) = Redirected (lit "app.html")
         <-> fst (login password st) = true)
        /\ snd (submit password st) = snd (login password st)).
Proof.
  split; [reflexivity|]. split; [|split; [reflexivity|]].
  - now apply login_after_setPassword.
  - intros Hp. unfold submit. destruct password as [|c r]; [congruence|].
    simpl. destruct (login (c :: r) st) as [[|] st']; simpl.
    + split; [tauto|reflexivity].
    + split; [|reflexivity]. split; discriminate.
Qed.

Lemma submit_empty_password_witness :
  let st := {| localStorage := ∅; sessionStorage := ∅ |} in
  fst (submit (lit "moleskine") st) = Redirected (lit "app.html")
  /\ fst (submit (lit "guess") st) = Refused (lit "Incorrect password").
Proof.
  intros st.
  destruct (submit_empty_password (lit "moleskine") st) as (_ & _ & _ & H).
  destruct H as [[_ H] _]; [discriminate|].
  split; [apply H; vm_compute; reflexivity|vm_compute; reflexivity].
Defined.

End AuthSessions.

Section GitHubRequests.
Import JS GitHub.

(** X10: [setToken] with a falsy token removes the token, and from then on
    [isConfigured()] is false and [apiRequest], [getFile] and
    [testConnection] fail with "GitHub token not configured" whatever the
    network would answer; [getFile] does not report a missing file.  With
    any other token [isConfigured()] is true and [getToken()] returns it. *)
Theorem token_gate (t : option jsstring) (E : env) (endpoint path : jsstring) :
  let E' := setToken t E in
  match t with
  | Some (c :: r) => isConfigured E' = true /\ getToken E' = Some (c :: r)
  | _ =>
      isConfigured E' = false
      /\ apiRequest E' endpoint = Thrown not_configured
      /\ getFile E' path = Thrown not_configured
      /\ testConnection E' = Some (lit "GitHub token not configured")
  end.
Proof.
  intros E'. destruct t as [[|c r]|]; repeat split; reflexivity.
Qed.

Lemma getFile_url (N : net) (path : jsstring) :
  lit "https://api.github.com"
  ++ (lit "/repos/" ++ owner (n_config N) ++ lit "/" ++ repo (n_config N)
      ++ lit "/contents/" ++ path ++ lit "?ref=" ++ branch (n_config N))
  = lookup_url N path.
Proof.
  unfold lookup_url, contents_endpoint. now rewrite <- !app_assoc.
Qed.

(** Without a 2xx answer to its GET, [getFile] returns no file. *)
Lemma getFile_no_file (N : net) (path : jsstring) :
  (forall st b, send N (Get (lookup_url N path)) = Response st b ->
                response_ok st = false) ->
  forall f, getFile (reading N) path <> Ok (Some f).
Proof.
  intros Hno f. unfold getFile, apiRequest. cbn [reading token config fetch atob].
  rewrite getFile_url.
  assert (Herr : forall e, on_error e <> Ok (Some f))
    by (intros e; unfold on_error; destruct (includes _ _); discriminate).
  destruct (n_token N) as [t|]; [destruct (truthy t)|]; try apply Herr.
  destruct (send N (Get (lookup_url N path))) as [e|st b] eqn:Hs;
    [apply Herr|].
  rewrite (Hno st b eq_refl). apply Herr.
Qed.

(** X11: [saveFile] never fails because the look-up of the file failed:
    when the GET is not answered with a 2xx status (the file is missing,
    the API is down, the request is rejected), the PUT is sent without
    [sha] and its outcome is the outcome of [saveFile].  When the GET
    returns a file with a [sha], the PUT carries that [sha]. *)
Theorem saveFile_lookup (N : net) (path content encoded : jsstring)
    (msg : option jsstring) :
  encode N content = Ok encoded ->
  ((forall st b, send N (Get (lookup_url N path)) = Response st b ->
                 response_ok st = false) ->
   saveFile N path content msg =
   apiRequestWith N
     (fun url => Put url {| b_message := message_or msg (lit "Update " ++ path);
                            b_content := encoded;
                            b_branch := branch (n_config N);
                            b_sha := None |})
     (contents_endpoint (n_config N) path))
  /\ (forall f c r,
        getFile (reading N) path = Ok (Some f) -> f_sha f = Some (c :: r) ->
        saveFile N path content msg =
        apiRequestWith N
          (fun url => Put url {| b_message := message_or msg (lit "Update " ++ path);
                                 b_content := encoded;
                                 b_branch := branch (n_config N);
                                 b_sha := Some (c :: r) |})
          (contents_endpoint (n_config N) path)).
Proof.
  intros He. split.
  - intros Hno. unfold saveFile, existing_sha. rewrite He.
    pose proof (getFile_no_file N path Hno) as Hf.
    destruct (getFile (reading N) path) as [[f|]|e]; [now destruct (Hf f)| |];
      reflexivity.
  - intros f c r Hg Hs. unfold saveFile, existing_sha. now rewrite He, Hg, Hs.
Qed.

Lemma saveFile_lookup_witness :
  saveFile (repository None) (lit "notebooks/a.md") (lit "hi") None
    = Ok {| p_message := None; p_content := None; p_sha := None; p_path := None |}
  /\ saveFile (repository (Some (lit "abc"))) (lit "notebooks/a.md") (lit "hi") None
     = Ok {| p_message := None; p_content := None; p_sha := Some (lit "abc");
             p_path := None |}.
Proof.
  split.
  - destruct (saveFile_lookup (repository None) (lit "notebooks/a.md") (lit "hi")
                (lit "hi") None eq_refl) as [H _].
    rewrite H; [reflexivity|]. intros st b. cbn. intros [= <- _]. reflexivity.
  - destruct (saveFile_lookup (repository (Some (lit "abc"))) (lit "notebooks/a.md")
                (lit "hi") (lit "hi") None eq_refl) as [_ H].
    rewrite (H _ 97%N (lit "bc") eq_refl eq_refl). reflexivity.
Defined.

(** X12: [deleteFile] of a file whose look-up is not answered with a 2xx
    status throws, with "File not found" or with the error of the look-up,
    and sends no DELETE: the outcome is the same whatever the network
    would answer to one. *)
Theorem deleteFile_missing (N N' : net) (path : jsstring) (msg : option jsstring) :
  (forall st b, send N (Get (lookup_url N path)) = Response st b ->
                response_ok st = false) ->
  n_token N' = n_token N -> n_config N' = n_config N -> n_atob N' = n_atob N ->
  (forall url, send N' (Get url) = send N (Get url)) ->
  (exists e, deleteFile N path msg = Thrown e
             /\ (e = {| message := lit "File not found" |}
                 \/ getFile (reading N) path = Thrown e))
  /\ deleteFile N' path msg = deleteFile N path msg.
Proof.
  intros Hno Ht Hc Ha Hg.
  assert (Hr : getFile (reading N') path = getFile (reading N) path).
  { unfold getFile, apiRequest. cbn [reading token config fetch atob].
    rewrite Ht, Hc, Ha, Hg. reflexivity. }
  pose proof (getFile_no_file N path Hno) as Hf.
  unfold deleteFile. rewrite Hr.
  destruct (getFile (reading N) path) as [[f|]|e]; [now destruct (Hf f)| |].
  - split; [|reflexivity]. eexists. split; [reflexivity|]. now left.
  - split; [|reflexivity]. exists e. split; [reflexivity|]. now right.
Qed.

Lemma deleteFile_missing_witness :
  deleteFile (repository None) (lit "notebooks/a.md") None
  = Thrown {| message := lit "Not Found" |}.
Proof.
  assert (Hno : forall st b,
             send (repository None)
                  (Get (lookup_url (repository None) (lit "notebooks/a.md")))
             = Response st b -> response_ok st = false).
  { intros st b. cbn. intros [= <- _]. reflexivity. }
  destruct (deleteFile_missing (repository None) (repository None)
              (lit "notebooks/a.md") None Hno eq_refl eq_refl eq_refl
              (fun _ => eq_refl)) as [(e & He & Hwhy) _].
  rewrite He. destruct Hwhy as [->|Hg].
  - exfalso. vm_compute in He. discriminate He.
  - vm_compute in Hg. injection Hg as <-. reflexivity.
Defined.

End GitHubRequests.

Section NotebookIndex.
Import JS GitHub.

Lemma str_leb_total (a b : jsstring) : str_leb a b = false -> str_leb b a = true.
Proof.
  revert b. induction a as [|x a IH]; intros [|y b]; simpl; try discriminate;
    try reflexivity.
  destruct (x <? y)%N eqn:Exy; [discriminate|].
  destruct (y <? x)%N eqn:Eyx; [reflexivity|]. apply IH.
Qed.

Lemma insert_sorted_elem (x t : jsstring) (l : list jsstring) :
  t ∈ insert_sorted x l <-> t = x \/ t ∈ l.
Proof.
  induction l as [|y l IH]; simpl.
  - rewrite list_elem_of_singleton. split; [auto|].
    intros [H|H]; [exact H|inversion H].
  - destruct (str_leb x y); rewrite !elem_of_cons; [tauto|].
    rewrite IH. tauto.
Qed.

Lemma insert_sorted_Sorted (x : jsstring) (l : list jsstring) :
  Sorted str_le l -> Sorted str_le (insert_sorted x l).
Proof.
  induction 1 as [|y l Hs IH Hd]; simpl; [repeat constructor|].
  destruct (str_leb x y) eqn:E.
  - constructor; [now constructor|]. now constructor.
  - constructor; [exact IH|].
    destruct l as [|z l]; simpl.
    + constructor. now apply str_leb_total.
    + destruct (str_leb x z); constructor.
      * now apply str_leb_total.
      * now inversion Hd.
Qed.

Lemma insert_sorted_NoDup (x : jsstring) (l : list jsstring) :
  x ∉ l -> NoDup l -> NoDup (insert_sorted x l).
Proof.
  induction l as [|y l IH]; simpl; intros Hx Hn; [apply NoDup_singleton|].
  destruct (str_leb x y); [now constructor|].
  rewrite elem_of_cons in Hx.
  apply NoDup_cons in Hn as [Hy Hn]. apply NoDup_cons. split.
  - rewrite insert_sorted_elem. intros [->|H]; tauto.
  - apply IH; [tauto|exact Hn].
Qed.

Lemma sort_spec (l : list jsstring) :
  Sorted str_le (sort l)
  /\ (forall t, t ∈ sort l <-> t ∈ l)
  /\ (NoDup l -> NoDup (sort l)).
Proof.
  induction l as [|x l (IH1 & IH2 & IH3)]; simpl.
  - split; [constructor|]. split; [tauto|auto].
  - split; [now apply insert_sorted_Sorted|]. split.
    + intros t. rewrite insert_sorted_elem, IH2, elem_of_cons. tauto.
    + intros Hn. apply NoDup_cons in Hn as [Hx Hn].
      apply insert_sorted_NoDup; [now rewrite IH2|auto].
Qed.

Lemma existsb_str_eqb (t : jsstring) (l : list jsstring) :
  existsb (str_eqb t) l = true <-> t ∈ l.
Proof.
  induction l as [|y l IH]; simpl.
  - split; [discriminate|]. intros H. inversion H.
  - rewrite orb_true_iff, IH, elem_of_cons, str_eqb_eq. tauto.
Qed.

Lemma set_add_spec (l : list jsstring) (t : jsstring) :
  (NoDup l -> NoDup (set_add l t))
  /\ (forall x, x ∈ set_add l t <-> x ∈ l \/ x = t).
Proof.
  unfold set_add. destruct (existsb (str_eqb t) l) eqn:E.
  - apply existsb_str_eqb in E. split; [auto|]. intros x. split; [tauto|].
    intros [H| ->]; assumption.
  - assert (Hn : t ∉ l).
    { intros H. apply existsb_str_eqb in H. congruence. }
    split.
    + intros Hd. apply NoDup_app. split; [exact Hd|]. split.
      * intros x Hx Hx'. apply list_elem_of_singleton in Hx'. now subst.
      * apply NoDup_singleton.
    + intros x. rewrite elem_of_app, list_elem_of_singleton. tauto.
Qed.

Lemma fold_set_add_spec (ts l : list jsstring) :
  (NoDup l -> NoDup (fold_left set_add ts l))
  /\ (forall x, x ∈ fold_left set_add ts l <-> x ∈ l \/ x ∈ ts).
Proof.
  revert l. induction ts as [|t ts IH]; intros l; simpl.
  - split; [auto|]. intros x. split; [tauto|]. intros [H|H]; [exact H|inversion H].
  - destruct (IH (set_add l t)) as [IH1 IH2].
    destruct (set_add_spec l t) as [H1 H2]. split; [auto|].
    intros x. rewrite IH2, H2, elem_of_cons. tauto.
Qed.

(** X13: the [tags] of the index that [updateNotebookIndex] saves and
    returns are sorted by code units, hold no tag twice, and are exactly the
    tags the index had before together with the tags of the notebook. *)
Theorem updateNotebookIndex_tags (N : net) (C : codec) (i title : jsstring)
    (ts : list jsstring) (now : jsstring) (r : index) :
  updateNotebookIndex N C i title ts now = Ok r ->
  exists all,
    tags r = Some all
    /\ Sorted str_le all
    /\ NoDup all
    /\ forall t, t ∈ all <-> t ∈ default [] (tags (read_index N C)) \/ t ∈ ts.
Proof.
  unfold updateNotebookIndex. destruct (saveFile _ _ _ _); [|discriminate].
  intros [= <-]. eexists. split; [reflexivity|].
  set (old := default [] (tags (read_index N C))).
  destruct (sort_spec (fold_left set_add ts (set_of old))) as (Hs & Hm & Hn).
  destruct (fold_set_add_spec old []) as [Hn0 Hm0].
  destruct (fold_set_add_spec ts (set_of old)) as [Hn1 Hm1].
  split; [exact Hs|]. split.
  - apply Hn, Hn1, Hn0. constructor.
  - intros t. rewrite Hm, Hm1. unfold set_of. rewrite Hm0.
    split; [intros [[H|H]|H]; auto; inversion H|tauto].
Qed.

Lemma updateNotebookIndex_tags_witness :
  let old := {| notebooks := []; tags := Some [lit "rocq"; lit "math"] |} in
  exists r,
    updateNotebookIndex (repository (Some (lit "abc"))) (reading_as old)
      (lit "a") (lit "A") [lit "math"; lit "art"] (lit "2025-01-01") = Ok r
    /\ tags r = Some [lit "art"; lit "math"; lit "rocq"].
Proof.
  intros old. eexists. split; [reflexivity|].
  destruct (updateNotebookIndex_tags (repository (Some (lit "abc")))
              (reading_as old) (lit "a") (lit "A") [lit "math"; lit "art"]
              (lit "2025-01-01") _ eq_refl) as (all & Ht & _).
  rewrite Ht. f_equal. cbn in Ht. now injection Ht as <-.
Defined.

Lemma find_after {A} (f : A -> bool) (l l' : list A) :
  List.find f l = None -> List.find f (l ++ l') = List.find f l'.
Proof.
  induction l as [|x l IH]; simpl; [reflexivity|].
  destruct (f x); [discriminate|exact IH].
Qed.

Lemma update_first_spec (i title : jsstring) (ts : list jsstring)
    (now : jsstring) (l : list entry) :
  match update_first i title ts now l with
  | Some l' =>
      map e_id l' = map e_id l
      /\ (exists e, List.find (fun e => str_eqb (e_id e) i) l = Some e
                    /\ List.find (fun e => str_eqb (e_id e) i) l'
                       = Some {| e_id := i; e_title := title; e_tags := ts;
                                 createdAt := createdAt e; e_updatedAt := now |})
      /\ filter (fun e => e_id e <> i) l' = filter (fun e => e_id e <> i) l
  | None =>
      List.find (fun e => str_eqb (e_id e) i) l = None
      /\ filter (fun e => e_id e <> i) l = l
  end.
Proof.
  induction l as [|e l IH]; simpl; [auto|].
  destruct (str_eqb (e_id e) i) eqn:E.
  - apply str_eqb_eq in E. split; [reflexivity|]. split.
    + exists e. split; [reflexivity|]. simpl. rewrite E, str_eqb_refl.
      reflexivity.
    + rewrite !filter_cons. simpl.
      destruct (decide (e_id e <> i)); [contradiction|reflexivity].
  - assert (Hne : e_id e <> i) by (intros H; apply str_eqb_eq in H; congruence).
    destruct (update_first i title ts now l) as [l'|].
    + destruct IH as (H1 & (e0 & H2 & H3) & H4). split; [simpl; now f_equal|].
      split.
      * exists e0. simpl. rewrite E. auto.
      * rewrite !filter_cons. destruct (decide (e_id e <> i)); [|contradiction].
        now f_equal.
    + destruct IH as [H1 H2]. split; [exact H1|].
      rewrite filter_cons. destruct (decide (e_id e <> i)); [|contradiction].
      now f_equal.
Qed.

(** X14: in the index that [updateNotebookIndex] saves and returns, the
    first entry with the notebook's id carries the new title, tags and
    date; it keeps the creation date of the entry that was there, or is a
    new entry at the end, created today, when there was none; the entries
    with other ids are the same, in the same order. *)
Theorem updateNotebookIndex_entry (N : net) (C : codec) (i title : jsstring)
    (ts : list jsstring) (now : jsstring) (r : index) :
  updateNotebookIndex N C i title ts now = Ok r ->
  let old := notebooks (read_index N C) in
  let before := List.find (fun e => str_eqb (e_id e) i) old in
  List.find (fun e => str_eqb (e_id e) i) (notebooks r)
    = Some {| e_id := i; e_title := title; e_tags := ts;
              createdAt := match before with
                           | Some e => createdAt e
                           | None => now
                           end;
              e_updatedAt := now |}
  /\ map e_id (notebooks r)
     = map e_id old ++ match before with Some _ => [] | None => [i] end
  /\ filter (fun e => e_id e <> i) (notebooks r)
     = filter (fun e => e_id e <> i) old.
Proof.
  unfold updateNotebookIndex. destruct (saveFile _ _ _ _); [|discriminate].
  intros [= <-]. cbn [notebooks].
  pose proof (update_first_spec i title ts now (notebooks (read_index N C))) as H.
  destruct (update_first i title ts now (notebooks (read_index N C))) as [l'|].
  - destruct H as (H1 & (e & H2 & H3) & H4). rewrite H2, H3, H1, H4.
    rewrite app_nil_r. auto.
  - destruct H as [H1 H2]. rewrite H1. split; [|split].
    + rewrite find_after by exact H1. simpl. now rewrite str_eqb_refl.
    + now rewrite map_app.
    + rewrite filter_app, filter_cons, filter_nil.
      destruct (decide (_ <> i)); [simpl in *; congruence|]. now rewrite app_nil_r.
Qed.

Lemma updateNotebookIndex_entry_witness :
  let e := {| e_id := lit "a"; e_title := lit "old"; e_tags := [];
              createdAt := lit "2024-05-05"; e_updatedAt := lit "2024-05-05" |} in
  let old := {| notebooks := [e]; tags := None |} in
  exists r,
    updateNotebookIndex (repository (Some (lit "abc"))) (reading_as old)
      (lit "a") (lit "A") [lit "art"] (lit "2025-01-01") = Ok r
    /\ notebooks r = [{| e_id := lit "a"; e_title := lit "A";
                         e_tags := [lit "art"]; createdAt := lit "2024-05-05";
                         e_updatedAt := lit "2025-01-01" |}].
Proof.
  intros e old. eexists. split; [reflexivity|].
  destruct (updateNotebookIndex_entry (repository (Some (lit "abc")))
              (reading_as old) (lit "a") (lit "A") [lit "art"]
              (lit "2025-01-01") _ eq_refl) as (H1 & _).
  cbn in H1. reflexivity.
Defined.

End NotebookIndex.

Section NotebookIds.
Import JS Regex GitHub.

Lemma notebook_id_slug (toLowerCase : jsstring -> jsstring) (title : jsstring) :
  notebook_id toLowerCase title = spec_slug toLowerCase title.
Proof.
  unfold notebook_id, spec_slug.
  rewrite (substring_from_start 50). f_equal.
  unfold junk_re. rewrite replace_all_char_delete.
  unfold replace_all_text, replace_all.
  rewrite (proj1 (replace_all_runs _ None)). f_equal.
  apply filter_ext. intros c. unfold spec_kept, is_hyphen.
  now rewrite negb_involutive.
Qed.

Lemma forallb_filter_self {A} (p : A -> bool) (l : list A) :
  forallb p (List.filter p l) = true.
Proof.
  induction l as [|x l IH]; simpl; [reflexivity|].
  destruct (p x) eqn:E; simpl; [now rewrite E|exact IH].
Qed.

Lemma forallb_take {A} (p : A -> bool) (n : nat) (l : list A) :
  forallb p l = true -> forallb p (take n l) = true.
Proof.
  revert n. induction l as [|x l IH]; intros [|n]; simpl; auto.
  intros H. apply andb_prop in H as [-> H]. now apply IH.
Qed.

Lemma spec_hyphenate_chars (b : bool) (s : jsstring) :
  forallb spec_kept s = true ->
  forallb (fun c => is_word c || is_hyphen c) (spec_hyphenate b s) = true.
Proof.
  revert b. induction s as [|c s IH]; intros b H; simpl in *; [reflexivity|].
  apply andb_prop in H as [Hc H].
  destruct (is_space c) eqn:Es.
  - destruct b; simpl; auto.
  - simpl. rewrite IH by exact H. unfold spec_kept in Hc. rewrite Es in Hc.
    unfold is_hyphen. rewrite orb_false_r in Hc.
    destruct (is_word c); [reflexivity|]. simpl in *. now rewrite Hc.
Qed.

Lemma notebook_id_chars (toLowerCase : jsstring -> jsstring) (title : jsstring) :
  forallb (fun c => is_word c || is_hyphen c) (notebook_id toLowerCase title)
  = true.
Proof.
  rewrite notebook_id_slug. unfold spec_slug. apply forallb_take.
  apply spec_hyphenate_chars. apply forallb_filter_self.
Qed.

Lemma filter_none {A} (p : A -> bool) (l : list A) :
  forallb (fun c => negb (p c)) l = true -> List.filter p l = [].
Proof.
  induction l as [|x l IH]; simpl; [reflexivity|].
  intros H. apply andb_prop in H as [Hx H]. destruct (p x); [discriminate|].
  now apply IH.
Qed.

(** X15: the id that [createNotebook] computes holds nothing but word
    characters and hyphens, so no whitespace, slash or dot; it is the empty
    string when the lowercased title has no word character, whitespace or
    hyphen, and [createNotebook] passes it on as it is. *)
Theorem notebook_id_charset (toLowerCase : jsstring -> jsstring)
    (title initialContent : jsstring)
    (saved : jsstring -> jsstring -> result bool) :
  forallb (fun c => is_word c || is_hyphen c) (notebook_id toLowerCase title)
  = true
  /\ (forallb (fun c => negb (is_word c || is_space c || is_hyphen c))
        (toLowerCase title) = true ->
      notebook_id toLowerCase title = []
      /\ forall nb, createNotebook toLowerCase title initialContent saved = Ok nb ->
                    nb_id nb = []).
Proof.
  split; [apply notebook_id_chars|].
  intros H.
  assert (He : notebook_id toLowerCase title = []).
  { rewrite notebook_id_slug. unfold spec_slug.
    rewrite (filter_none spec_kept) by exact H. reflexivity. }
  split; [exact He|]. intros nb. unfold createNotebook.
  destruct (saved _ _); [|discriminate]. intros [= <-]. exact He.
Qed.

Lemma notebook_id_charset_witness :
  notebook_id (fun t => t) (lit "?!") = []
  /\ createNotebook (fun t => t) (lit "?!") [] (fun _ _ => Ok true)
     = Ok {| nb_id := []; nb_title := lit "?!";
             nb_content := lit "# ?!" ++ [10; 10]%N
                           ++ lit "Start writing here..." ++ [10%N] |}.
Proof.
  destruct (notebook_id_charset (fun t => t) (lit "?!") [] (fun _ _ => Ok true))
    as [_ H].
  destruct (H eq_refl) as [H1 H2]. split; [exact H1|].
  specialize (H2 _ eq_refl). reflexivity.
Defined.

(** X16: [saveToGitHub()] calls [GitHub.saveNotebook] exactly when the
    editor content is not blank, and then with the content as it is, the
    title [extractTitle] gives, and an id that is not empty, has at most 50
    characters and holds nothing but word characters and hyphens: the id
    of [createNotebook], or 'untitled' where that would be empty. *)
Theorem saveToGitHub_arguments (toLowerCase : jsstring -> jsstring)
    (content : jsstring) :
  match App.saveToGitHub_args toLowerCase content with
  | None => trim content = []
  | Some (i, text, title) =>
      trim content <> [] /\ text = content
      /\ Markdown.extractTitle content = Some title
      /\ i <> [] /\ (length i <= 50)%nat
      /\ forallb (fun c => is_word c || is_hyphen c) i = true
      /\ i = match notebook_id toLowerCase title with
             | [] => lit "untitled"
             | c :: r => c :: r
             end
  end.
Proof.
  unfold App.saveToGitHub_args.
  destruct (trim content) as [|c r] eqn:Et; simpl; [reflexivity|].
  destruct (extractTitle_returns content) as [title Ht]. rewrite Ht.
  split; [discriminate|]. split; [reflexivity|]. split; [reflexivity|].
  pose proof (notebook_id_chars toLowerCase title) as Hc.
  assert (Hl : (length (notebook_id toLowerCase title) <= 50)%nat).
  { rewrite notebook_id_slug. unfold spec_slug. rewrite length_take. lia. }
  destruct (notebook_id toLowerCase title) as [|x i]; simpl.
  - repeat split; try discriminate; try reflexivity. simpl. lia.
  - repeat split; try discriminate; assumption.
Qed.

End NotebookIds.

Section StorageMore.
Import JS Storage.

Lemma set_property_twice {A} (own : gmap (list N) A) (i : jsstring) (a b : A) :
  set_property (set_property own i a) i b = set_property own i b.
Proof.
  unfold set_property.
  destruct (own !! i) eqn:E.
  - rewrite lookup_insert_eq. apply insert_insert_eq.
  - destruct (str_eqb i proto_name); [now rewrite E|].
    rewrite lookup_insert_eq. apply insert_insert_eq.
Qed.

Lemma delete_set_property {A} (own : gmap (list N) A) (i : jsstring) (a : A) :
  delete i (set_property own i a) = delete i own.
Proof.
  unfold set_property.
  destruct (own !! i); [apply delete_insert_eq|].
  destruct (str_eqb i proto_name); [reflexivity|apply delete_insert_eq].
Qed.

(** X17: for every id, [deleteDraft(id)] takes back a [saveDraft] under
    that id: the store after saving and deleting is the store after
    deleting alone, and [getDraft(id)] then finds no draft (it is [null],
    or for a name of [Object.prototype] that member); saving twice under
    one id leaves what the second save alone would leave. *)
Theorem saveDraft_deleteDraft (i c1 c2 : jsstring) (t1 t2 : option jsstring)
    (n1 n2 : jsstring) (st : storage) :
  deleteDraft i (saveDraft i c1 t1 n1 st) = deleteDraft i st
  /\ saveDraft i c2 t2 n2 (saveDraft i c1 t1 n1 st) = saveDraft i c2 t2 n2 st
  /\ getDraft i (deleteDraft i (saveDraft i c1 t1 n1 st))
     = (if inherited i then GotBuiltin i else Null).
Proof.
  assert (Hdel : deleteDraft i (saveDraft i c1 t1 n1 st) = deleteDraft i st).
  { unfold deleteDraft, saveDraft, getDrafts at 1. simpl.
    now rewrite delete_set_property. }
  split; [exact Hdel|split].
  - unfold saveDraft, getDrafts at 1. simpl. now rewrite set_property_twice.
  - rewrite Hdel. unfold getDraft, deleteDraft, getDrafts at 1, get_property.
    simpl. rewrite lookup_delete_eq. now destruct (inherited i).
Qed.



Lemma run_keeps_settings ops :
  forallb keeps_settings ops = true ->
  forall st, settings_item (run ops st) = settings_item st.
Proof.
  induction ops as [|o ops IH]; intros Hk st; [reflexivity|].
  simpl in Hk. apply andb_prop in Hk as [Ho Hk]. simpl.
  rewrite IH by exact Hk. destruct o; try discriminate; reflexivity.
Qed.

Lemma run_keeps_drafts ops :
  forallb keeps_drafts ops = true ->
  forall st, drafts_item (run ops st) = drafts_item st.
Proof.
  induction ops as [|o ops IH]; intros Hk st; [reflexivity|].
  simpl in Hk. apply andb_prop in Hk as [Ho Hk]. simpl.
  rewrite IH by exact Hk. destruct o; try discriminate; reflexivity.
Qed.

(** X19: the three items do not interfere: whatever drafts are saved or
    deleted and whatever notebooks are opened, every setting reads as
    before, and whatever settings are saved and notebooks opened, every
    draft reads as before. *)
Theorem items_independent (ops : list op) (st : storage) (k : jsstring) :
  (forallb keeps_settings ops = true ->
     getSettings (run ops st) = getSettings st
     /\ getSetting k (run ops st) = getSetting k st)
  /\ (forallb keeps_drafts ops = true ->
        getDrafts (run ops st) = getDrafts st
        /\ getDraft k (run ops st) = getDraft k st).
Proof.
  split; intros H.
  - unfold getSetting, getSettings. now rewrite (run_keeps_settings ops H).
  - unfold getDraft, getDrafts. now rewrite (run_keeps_drafts ops H).
Qed.

Lemma items_independent_witness :
  let st := snd (setSetting (lit "theme") (JStr (lit "dark")) empty) in
  let ops := [SaveDraft (lit "draft_1") (lit "text") None (lit "t1");
              AddToRecent (lit "welcome") (lit "Welcome") (lit "t2");
              DeleteDraft (lit "draft_1")] in
  getSetting (lit "theme") (run ops st) = Own (JStr (lit "dark")).
Proof.
  intros st ops.
  destruct (items_independent ops st (lit "theme")) as [H _].
  destruct (H eq_refl) as [_ H2]. rewrite H2. reflexivity.
Defined.

Lemma distinct_ids_NoDup (l : list recent_entry) :
  NoDup (map r_id (distinct_ids l)).
Proof.
  induction l as [|r l IH]; simpl; [constructor|].
  apply NoDup_cons. split; [|now apply filter_ids_NoDup].
  intros Hin. apply list_elem_of_fmap in Hin as (x & Hx & Hin).
  apply list_elem_of_filter in Hin as [Hne _].
  rewrite <- Hx, str_eqb_refl in Hne. discriminate.
Qed.

Lemma filter_keeps_all {A} (p : A -> Prop) `{forall x, Decision (p x)}
    (l : list A) :
  (forall x, x ∈ l -> p x) -> filter p l = l.
Proof.
  induction l as [|x l IH]; intros Hp; [reflexivity|].
  rewrite filter_cons. destruct (decide (p x)) as [_|Hn].
  - f_equal. apply IH. intros y Hy. apply Hp. now right.
  - exfalso. apply Hn, Hp. now left.
Qed.

(** Dropping the entry with one id from a list without repeated ids frees
    at most one place: the first [n] survivors all come from the first
    [n + 1] entries. *)
Lemma take_filter_id (i : jsstring) (l : list recent_entry) :
  NoDup (map r_id l) ->
  forall n,
    take n (filter (fun r => str_eqb (r_id r) i = false) (take (S n) l))
    = take n (filter (fun r => str_eqb (r_id r) i = false) l).
Proof.
  induction l as [|m l IH]; intros Hn n; [reflexivity|].
  simpl in Hn. apply NoDup_cons in Hn as [Hm Hn].
  destruct n as [|n]; [now rewrite !take_0|].
  change (take (S (S n)) (m :: l)) with (m :: take (S n) l).
  rewrite !filter_cons.
  destruct (decide (str_eqb (r_id m) i = false)) as [Hp|Hp].
  - simpl. f_equal. now apply IH.
  - apply not_false_is_true, str_eqb_eq in Hp.
    assert (Hall : forall l', l' ⊆ l ->
              filter (fun r => str_eqb (r_id r) i = false) l' = l').
    { intros l' Hsub. apply filter_keeps_all.
      intros x Hx. apply str_eqb_neq. intros Heq. apply Hm.
      apply list_elem_of_fmap. exists x. split; [congruence|].
      apply Hsub, Hx. }
    rewrite !Hall; [|reflexivity|].
    + rewrite take_take. f_equal. lia.
    + apply subseteq_take.
Qed.

Lemma open_all_snoc (l : list recent_entry) (r : recent_entry) st :
  open_all (l ++ [r]) st
  = addToRecent (r_id r) (r_title r) (accessedAt r) (open_all l st).
Proof. unfold open_all. now rewrite fold_left_app. Qed.

(** X20: the list is a most-recently-used list: after any sequence of
    [addToRecent] calls on a store with no recent notebooks, it holds the
    ten most recently opened distinct notebooks, latest first, each with
    the title and time of its latest opening. *)
Theorem recent_is_lru (opened : list recent_entry) (st : storage) :
  getRecent st = [] ->
  getRecent (open_all opened st) = take 10 (distinct_ids (rev opened)).
Proof.
  intros H0. induction opened as [|r l IH] using rev_ind.
  - simpl. exact H0.
  - rewrite open_all_snoc, addToRecent_list, IH, rev_unit.
    destruct r as [i t a]. simpl. f_equal.
    apply (take_filter_id i _ (distinct_ids_NoDup (rev l)) 9).
Qed.

Lemma recent_is_lru_witness :
  let nb (i t : string) :=
    {| r_id := lit i; r_title := lit t; accessedAt := lit t |} in
  map r_title
    (getRecent (open_all [nb "a" "1"; nb "b" "2"; nb "a" "3"]%string empty))
  = [lit "3"; lit "2"].
Proof.
  intros nb. rewrite (recent_is_lru _ empty eq_refl). reflexivity.
Defined.

End StorageMore.

Section MarkdownMore.
Import JS Regex Markdown GitHub.

(** An expression that starts with a unit of class [p] finds nothing in a
    text without such a unit. *)
Lemma replace_go_no_start (p : N -> bool) re f (s : jsstring) :
  forallb (fun c => negb (p c)) s = true ->
  forall prev, replace_go (Char p :: re) f 0 prev s = s.
Proof.
  induction s as [|c s IH]; intros Hs prev; [reflexivity|].
  simpl in Hs. apply andb_prop in Hs as [Hc Hs].
  apply negb_true_iff in Hc. simpl. unfold match_at. simpl. rewrite Hc.
  f_equal. now apply IH.
Qed.

(** X21: a text without a dollar sign comes out of [processMath] as it
    went in, whatever KaTeX is loaded and whatever it would do: KaTeX is
    not asked. *)
Theorem processMath_without_dollar (L : libs) (html : jsstring) :
  forallb not_dollar html = true -> processMath L html = html.
Proof.
  intros H. unfold processMath. destruct (katex L) as [k|]; [|reflexivity].
  unfold replace_all, block_re, inline_re.
  rewrite (replace_go_no_start is_dollar _ _ html H).
  apply (replace_go_no_start is_dollar _ _ html H).
Qed.

Lemma processMath_without_dollar_witness :
  processMath {| marked := None; katex := Some (fun _ _ => Throws);
                 text_to_html := fun t => t |} (lit "<p>no math</p>")
  = lit "<p>no math</p>".
Proof. apply processMath_without_dollar. reflexivity. Defined.

Lemma greedy_first {R} (try : nat -> option R) (min k : nat) (r : R) :
  (min <= k)%nat -> try k = Some r -> greedy try min k = Some r.
Proof.
  intros Hk Ht. destruct k; simpl.
  - destruct (Nat.ltb 0 min) eqn:E; [apply Nat.ltb_lt in E; lia|].
    now rewrite Ht.
  - destruct (Nat.ltb (S k) min) eqn:E; [apply Nat.ltb_lt in E; lia|].
    now rewrite Ht.
Qed.

Lemma take_while_forall {A} (p : A -> bool) (l : list A) :
  forallb p l = true -> take_while p l = l.
Proof.
  induction l as [|x l IH]; simpl; [reflexivity|].
  intros H. apply andb_prop in H as [-> H]. f_equal. now apply IH.
Qed.

Lemma take_drop_while {A} (p : A -> bool) (l : list A) :
  l = take_while p l ++ drop_while p l.
Proof.
  induction l as [|x l IH]; simpl; [reflexivity|].
  destruct (p x); simpl; [now f_equal|reflexivity].
Qed.

Lemma drop_while_head {A} (p : A -> bool) (l : list A) (c : A) (r : list A) :
  drop_while p l = c :: r -> p c = false.
Proof.
  induction l as [|x l IH]; simpl; [discriminate|].
  destruct (p x) eqn:E; [exact IH|]. now intros [= <- _].
Qed.

(** A heading at the very start of a text: "#", whitespace, then a body
    that starts with something else, has no line terminator and runs to the
    end of its line. *)
Lemma h1_at_head (sp body tail : jsstring) (c : N) (rest : jsstring) :
  sp <> [] -> forallb is_space sp = true ->
  body = c :: rest -> is_space c = false -> forallb is_dot body = true ->
  match tail with [] => true | t :: _ => is_line_terminator t end = true ->
  exists len,
    match_at h1_re None (35%N :: sp ++ body ++ tail) = Some (len, Some body).
Proof.
  intros Hsp Hs Hb Hc Hd Ht. unfold match_at, h1_re. simpl.
  assert (Hrun : take_while is_space (sp ++ body ++ tail) = sp).
  { rewrite Hb. simpl. now apply take_while_app. }
  assert (Hdot : take_while is_dot (body ++ tail) = body).
  { destruct tail as [|t tail].
    - rewrite app_nil_r. now apply take_while_forall.
    - apply take_while_app; [exact Hd|]. unfold is_dot. now rewrite Ht. }
  assert (Hin : greedy
             (fun k0 : nat =>
                match drop k0 (drop (length sp) (sp ++ body ++ tail)) with
                | [] => Some (S (length sp + k0),
                              Some (S (length sp), S (length sp + k0)))
                | c0 :: _ =>
                    if is_line_terminator c0
                    then Some (S (length sp + k0),
                               Some (S (length sp), S (length sp + k0)))
                    else None
                end)
             1 (length (take_while is_dot
                          (drop (length sp) (sp ++ body ++ tail))))
           = Some (S (length sp + length body),
                   Some (S (length sp), S (length sp + length body)))).
  { rewrite drop_app_length, Hdot. apply greedy_first.
    - rewrite Hb. simpl. lia.
    - rewrite drop_app_length. destruct tail as [|t tail]; [reflexivity|].
      now rewrite Ht. }
  assert (Hlen : (1 <= length sp)%nat).
  { destruct sp; simpl; [congruence|lia]. }
  rewrite Hrun. rewrite (greedy_first _ 1 (length sp) _ Hlen Hin).
  eexists. do 2 f_equal.
  replace (S (length sp + length body) - S (length sp))%nat
    with (length body) by lia.
  simpl. rewrite drop_app_length. now rewrite take_app_length.
Qed.

Lemma extractTitle_head (s : jsstring) (len : nat) (g : jsstring) :
  match_at h1_re None s = Some (len, Some g) ->
  extractTitle s = Some (trim g).
Proof.
  intros H. unfold extractTitle, match_first.
  destruct s; cbn [search]; now rewrite H.
Qed.

(** X22: the heading of a notebook that [createNotebook] has just written
    with its default contents: for a title on one line with something
    other than whitespace in it, [extractTitle] reads the trimmed title
    back; for a title of whitespace only, the heading expression runs on
    to the text below and the title read is the placeholder line. *)
Theorem created_notebook_title (toLowerCase : jsstring -> jsstring)
    (title : jsstring) (saved : jsstring -> jsstring -> result bool)
    (nb : notebook) :
  createNotebook toLowerCase title [] saved = Ok nb ->
  (forallb is_dot title = true -> trim title <> [] ->
     extractTitle (nb_content nb) = Some (trim title))
  /\ (forallb is_space title = true ->
        extractTitle (nb_content nb) = Some (lit "Start writing here...")).
Proof.
  unfold createNotebook. simpl truthy. cbv iota.
  destruct (saved _ _); [|discriminate]. intros [= <-]. simpl nb_content.
  set (below := lit "Start writing here...").
  split.
  - intros Hd Hne.
    pose proof (take_drop_while is_space title) as Hsplit.
    set (sp := take_while is_space title) in *.
    assert (Hsp : forallb is_space sp = true) by apply take_while_all.
    destruct (drop_while is_space title) as [|c rest] eqn:Eb.
    + exfalso. apply Hne. apply trim_blank. rewrite Hsplit, app_nil_r.
      exact Hsp.
    + pose proof (drop_while_head _ _ _ _ Eb) as Hc.
      assert (Htrim : trim title = trim (c :: rest)).
      { unfold trim. rewrite Eb. simpl. now rewrite Hc. }
      rewrite Htrim.
      destruct (h1_at_head (32%N :: sp) (c :: rest)
                  ([10; 10]%N ++ below ++ [10%N]) c rest) as [len Hm];
        try reflexivity; try assumption; [discriminate| |].
      * rewrite Hsplit, forallb_app in Hd. now apply andb_prop in Hd.
      * apply (extractTitle_head _ len).
        rewrite <- Hm. f_equal. rewrite Hsplit. simpl.
        now rewrite <- !app_assoc.
  - intros Hb.
    destruct (h1_at_head (32%N :: title ++ [10; 10]%N) below [10%N]
                83%N (lit "tart writing here...")) as [len Hm];
      try reflexivity; [discriminate| |].
    + simpl. rewrite forallb_app, Hb. reflexivity.
    + change (Some below) with (Some (trim below)).
      apply (extractTitle_head _ len). rewrite <- Hm. f_equal. simpl.
      now rewrite <- !app_assoc.
Qed.

Lemma created_notebook_title_witness :
  extractTitle
    (lit "# " ++ lit "  field notes " ++ [10; 10]%N
     ++ lit "Start writing here..." ++ [10%N])
  = Some (lit "field notes").
Proof.
  refine (proj1 (created_notebook_title (fun s => s) (lit "  field notes ")
                   (fun _ _ => Ok true)
                   {| nb_id := lit "-field-notes-";
                      nb_title := lit "  field notes ";
                      nb_content := lit "# " ++ lit "  field notes "
                                    ++ [10; 10]%N
                                    ++ lit "Start writing here..." ++ [10%N] |}
                   _) _ _).
  - vm_compute. reflexivity.
  - reflexivity.
  - vm_compute. discriminate.
Defined.

Lemma search_h1_none (s : jsstring) :
  no_hash s = true ->
  forall before prev, search h1_re before prev s = None.
Proof.
  induction s as [|c s IH]; intros Hs before prev.
  - simpl. unfold match_at, h1_re. simpl.
    destruct prev as [p|]; [destruct (is_line_terminator p)|]; reflexivity.
  - simpl in Hs. apply andb_prop in Hs as [Hc Hs].
    apply negb_true_iff in Hc. cbn [search].
    assert (Hm : match_at h1_re prev (c :: s) = None).
    { unfold match_at, h1_re. cbn [exec]. rewrite Hc.
      destruct prev as [p|]; [destruct (is_line_terminator p)|]; reflexivity. }
    rewrite Hm. now apply IH.
Qed.

Lemma search_hashes_none (s : jsstring) :
  no_hash s = true ->
  forall before prev, search hashes_re before prev s = None.
Proof.
  induction s as [|c s IH]; intros Hs before prev.
  - simpl. unfold match_at, hashes_re. simpl. now destruct prev.
  - simpl in Hs. apply andb_prop in Hs as [Hc Hs].
    apply negb_true_iff in Hc. cbn [search].
    assert (Hm : match_at hashes_re prev (c :: s) = None).
    { unfold match_at, hashes_re. cbn [exec take_while]. rewrite Hc.
      now destruct prev. }
    rewrite Hm. now apply IH.
Qed.

Lemma split_lines_aux_forall (p : N -> bool) (s : jsstring) :
  forallb p s = true ->
  forall cur, forallb p cur = true ->
  forall l, l ∈ split_lines_aux cur s -> forallb p l = true.
Proof.
  induction s as [|c s IH]; intros Hs cur Hcur l Hl; simpl in *.
  - apply list_elem_of_singleton in Hl as ->.
    rewrite forallb_forall in *. intros x Hx. apply Hcur.
    now apply in_rev.
  - apply andb_prop in Hs as [Hc Hs]. destruct (c =? 10)%N.
    + apply elem_of_cons in Hl as [->|Hl].
      * rewrite forallb_forall in *. intros x Hx. apply Hcur. now apply in_rev.
      * now apply (IH Hs []).
    + apply (IH Hs (c :: cur)); [|exact Hl]. simpl. now rewrite Hc.
Qed.

(** X23: on a text without "#", [extractTitle] gives the first line that
    is not blank, trimmed and cut to its first 50 units, and 'Untitled'
    when there is no such line; a text of whitespace only is 'Untitled'. *)
Theorem extractTitle_plain_text (markdown : jsstring) :
  no_hash markdown = true ->
  extractTitle markdown
  = Some match filter (fun l => truthy (trim l) = true)
                      (split_lines markdown) with
         | l :: _ => take 50 (trim l)
         | [] => lit "Untitled"
         end
  /\ (forallb is_space markdown = true ->
        extractTitle markdown = Some (lit "Untitled")).
Proof.
  intros Hn.
  assert (Hfirst : extractTitle markdown
          = Some match filter (fun l => truthy (trim l) = true)
                              (split_lines markdown) with
                 | l :: _ => take 50 (trim l)
                 | [] => lit "Untitled"
                 end).
  { unfold extractTitle, match_first. rewrite (search_h1_none _ Hn).
    destruct (filter _ _) as [|l ls] eqn:Ef; [reflexivity|].
    assert (Hl : l ∈ split_lines markdown).
    { assert (Hin : l ∈ l :: ls) by now left.
      rewrite <- Ef in Hin. now apply list_elem_of_filter in Hin. }
    apply (split_lines_aux_forall _ _ Hn [] eq_refl) in Hl.
    unfold replace_first. rewrite (search_hashes_none _ Hl).
    now rewrite (slice_from_start 50). }
  split; [exact Hfirst|].
  intros Hb. rewrite Hfirst.
  destruct (filter _ _) as [|l ls] eqn:Ef; [reflexivity|]. exfalso.
  assert (Hin : l ∈ l :: ls) by now left.
  rewrite <- Ef in Hin. apply list_elem_of_filter in Hin as [Ht Hl].
  apply (split_lines_aux_forall _ _ Hb [] eq_refl) in Hl.
  rewrite (trim_blank _ Hl) in Ht. discriminate.
Qed.

Lemma extractTitle_plain_text_witness :
  extractTitle (lit "   " ++ [10%N] ++ lit "  shopping list  " ++ [10%N]
                ++ lit "milk")
  = Some (lit "shopping list").
Proof.
  refine (eq_trans (proj1 (extractTitle_plain_text _ _)) _).
  - reflexivity.
  - vm_compute. reflexivity.
Defined.

End MarkdownMore.

Section EditorMore.
Import JS Editor.

Lemma draft_id_of_ok (now_ms : Z) (ed : state) :
  currentDraftId ed <> Some Storage.proto_name ->
  draft_id_of now_ms ed <> Storage.proto_name
  /\ truthy (draft_id_of now_ms ed) = true.
Proof.
  intros Hp. unfold draft_id_of.
  destruct (currentDraftId ed) as [i|].
  - destruct (truthy i) eqn:E.
    + split; [congruence|exact E].
    + split; [discriminate|reflexivity].
  - split; [discriminate|reflexivity].
Qed.

Lemma saveDraft_files (now_ms : Z) (now_iso : jsstring) (ed : state)
    (st : Storage.storage) (text : jsstring) :
  textarea ed = Some text -> trim text <> [] ->
  exists title,
    Markdown.extractTitle text = Some title
    /\ saveDraft now_ms now_iso ed st
       = ({| textarea := Some text;
             currentDraftId := Some (draft_id_of now_ms ed) |},
          Storage.saveDraft (draft_id_of now_ms ed) text (Some title)
            now_iso st).
Proof.
  intros Ht Hne. destruct (extractTitle_returns text) as [title Hx].
  exists title. split; [exact Hx|].
  unfold saveDraft, draft_id_of. rewrite Ht, Hx.
  destruct (trim text); [congruence|]. reflexivity.
Qed.

(** X24: what [saveDraft()] files can be opened again: with text other
    than whitespace in the textarea and a current draft id other than
    '__proto__', the editor ends up with a draft id under which the store
    holds that text, [loadDraft] of that id puts the text back into any
    editor that has a textarea, and later saves go to the same id whatever
    the clock says. *)
Theorem editor_draft_round_trip (now_ms : Z) (now_iso : jsstring)
    (ed : state) (st : Storage.storage) (text : jsstring) :
  textarea ed = Some text -> trim text <> [] ->
  currentDraftId ed <> Some Storage.proto_name ->
  let ed' := fst (saveDraft now_ms now_iso ed st) in
  let st' := snd (saveDraft now_ms now_iso ed st) in
  exists i title,
    currentDraftId ed' = Some i
    /\ Markdown.extractTitle text = Some title
    /\ Storage.getDraft i st'
       = Storage.GotDraft {| Storage.content := text; Storage.title := title;
                             Storage.updatedAt := now_iso |}
    /\ (forall ed2, textarea ed2 <> None ->
          loadDraft i ed2 st'
          = {| textarea := Some text; currentDraftId := Some i |}
          /\ getContent (loadDraft i ed2 st') = text)
    /\ (forall ms iso st2,
          currentDraftId (fst (saveDraft ms iso ed' st2)) = Some i).
Proof.
  intros Ht Hne Hp ed' st'.
  destruct (saveDraft_files now_ms now_iso ed st text Ht Hne) as (title & Hx & Hs).
  destruct (draft_id_of_ok now_ms ed Hp) as [Hi Hty].
  subst ed' st'. rewrite Hs. simpl fst. simpl snd.
  exists (draft_id_of now_ms ed), title.
  assert (Hg : Storage.getDraft (draft_id_of now_ms ed)
                 (Storage.saveDraft (draft_id_of now_ms ed) text (Some title)
                    now_iso st)
               = Storage.GotDraft
                   {| Storage.content := text; Storage.title := title;
                      Storage.updatedAt := now_iso |}).
  { unfold Storage.getDraft, Storage.saveDraft, Storage.getDrafts at 1. simpl.
    now rewrite get_set_property_same. }
  split; [reflexivity|]. split; [exact Hx|]. split; [exact Hg|]. split.
  - intros ed2 H2. unfold loadDraft. rewrite Hg.
    destruct (textarea ed2); [|congruence]. split; reflexivity.
  - intros ms iso st2.
    destruct (saveDraft_files ms iso
                {| textarea := Some text;
                   currentDraftId := Some (draft_id_of now_ms ed) |}
                st2 text eq_refl Hne) as (t2 & _ & Hs2).
    rewrite Hs2. simpl. unfold draft_id_of at 1. simpl. now rewrite Hty.
Qed.

Lemma editor_draft_round_trip_witness :
  let ed := {| textarea := Some (lit "# Plan"); currentDraftId := None |} in
  let st' := snd (saveDraft 1700000000000 (lit "t") ed Storage.empty) in
  getContent (loadDraft (lit "draft_1700000000000")
                {| textarea := Some []; currentDraftId := None |} st')
  = lit "# Plan".
Proof.
  intros ed st'.
  destruct (editor_draft_round_trip 1700000000000 (lit "t") ed Storage.empty
              (lit "# Plan") eq_refl)
    as (i & title & Hi & _ & _ & Hl & _).
  - vm_compute. discriminate.
  - discriminate.
  - assert (Hid : i = lit "draft_1700000000000").
    { vm_compute in Hi. now injection Hi as <-. }
    subst i.
    destruct (Hl {| textarea := Some []; currentDraftId := None |}) as [_ Hc];
      [discriminate|]. exact Hc.
Defined.

Lemma digits_fuel_value (fuel : nat) :
  forall n acc, (n < 2 ^ N.of_nat fuel)%N ->
  exists ds,
    digits_fuel fuel n acc = ds ++ acc /\ digits_value ds = n
    /\ (fuel <> O -> exists d r, ds = d :: r /\ (48 <= d)%N).
Proof.
  induction fuel as [|f IH]; intros n acc Hn.
  - exists []. change (2 ^ N.of_nat 0)%N with 1%N in Hn.
    split; [reflexivity|]. split; [unfold digits_value; simpl; lia|congruence].
  - cbn [digits_fuel]. destruct (n <? 10)%N eqn:E.
    + apply N.ltb_lt in E. exists [(48 + n mod 10)%N].
      split; [reflexivity|]. split.
      * unfold digits_value. simpl. rewrite N.mod_small by lia. lia.
      * intros _. eexists _, _. split; [reflexivity|apply N.le_add_r].
    + apply N.ltb_ge in E.
      assert (Hdiv : (n / 10 < 2 ^ N.of_nat f)%N).
      { rewrite Nat2N.inj_succ, N.pow_succ_r' in Hn.
        apply N.Div0.div_lt_upper_bound. lia. }
      destruct (IH (n / 10)%N ((48 + n mod 10)%N :: acc) Hdiv)
        as (ds & Hds & Hv & Hh).
      exists (ds ++ [(48 + n mod 10)%N]). split; [|split].
      * rewrite Hds. now rewrite <- app_assoc.
      * unfold digits_value in *. rewrite fold_left_app, Hv. simpl.
        pose proof (N.div_mod n 10) as Hdm.
        set (q := (n / 10)%N) in *. set (m := (n mod 10)%N) in *.
        clearbody q m. lia.
      * intros _. destruct f as [|f].
        { simpl in Hdiv. assert (n / 10 = 0)%N by lia.
          apply N.div_small_iff in H; lia. }
        destruct Hh as (d & r & -> & Hd); [congruence|].
        exists d, (r ++ [(48 + n mod 10)%N]). split; [reflexivity|exact Hd].
Qed.

Lemma nat_digits_value (n : N) :
  digits_value (nat_digits n) = n
  /\ exists d r, nat_digits n = d :: r /\ (48 <= d)%N.
Proof.
  unfold nat_digits.
  destruct (digits_fuel_value (S (N.to_nat (N.log2 n))) n []) as (ds & Hds & Hv & Hh).
  - rewrite Nat2N.inj_succ, N2Nat.id.
    destruct n as [|q]; [reflexivity|]. apply N.log2_spec. lia.
  - rewrite Hds, app_nil_r. split; [exact Hv|]. now apply Hh.
Qed.

(** [String(z)] tells integers apart. *)
Lemma int_to_string_inj (a b : Z) :
  int_to_string a = int_to_string b -> a = b.
Proof.
  unfold int_to_string. intros H.
  destruct (nat_digits_value (Z.to_N a)) as [Va (da & ra & Ea & Ha)].
  destruct (nat_digits_value (Z.to_N b)) as [Vb (db & rb & Eb & Hb)].
  destruct (nat_digits_value (Z.to_N (- a))) as [Vna _].
  destruct (nat_digits_value (Z.to_N (- b))) as [Vnb _].
  destruct (a <? 0) eqn:Sa, (b <? 0) eqn:Sb;
    try apply Z.ltb_lt in Sa; try apply Z.ltb_lt in Sb;
    try apply Z.ltb_ge in Sa; try apply Z.ltb_ge in Sb.
  - injection H as H. rewrite H in Vna. lia.
  - rewrite Eb in H. injection H as H _. lia.
  - rewrite Ea in H. injection H as H _. lia.
  - rewrite H in Va. lia.
Qed.

(** X25: drafts started at different clock readings get different ids, so
    the second save leaves the first draft as it was; two drafts started
    within one millisecond share an id, and the second replaces the
    first. *)
Theorem new_draft_ids (t1 t2 : Z) (iso1 iso2 : jsstring) (ed : state)
    (st : Storage.storage) (text1 text2 : jsstring) :
  textarea ed = Some text1 -> trim text1 <> [] -> trim text2 <> [] ->
  currentDraftId ed = None ->
  let ed1 := fst (saveDraft t1 iso1 ed st) in
  let st1 := snd (saveDraft t1 iso1 ed st) in
  let typed := {| textarea := Some text2;
                  currentDraftId := currentDraftId (newDraft ed1) |} in
  let ed2 := fst (saveDraft t2 iso2 typed st1) in
  let st2 := snd (saveDraft t2 iso2 typed st1) in
  exists i1 i2,
    currentDraftId ed1 = Some i1 /\ currentDraftId ed2 = Some i2
    /\ (t1 <> t2 ->
          i1 <> i2 /\ Storage.getDraft i1 st2 = Storage.getDraft i1 st1)
    /\ (t1 = t2 ->
          i1 = i2
          /\ exists d, Storage.getDraft i1 st2 = Storage.GotDraft d
                       /\ Storage.content d = text2).
Proof.
  intros Ht Hn1 Hn2 Hc ed1 st1 typed ed2 st2.
  destruct (saveDraft_files t1 iso1 ed st text1 Ht Hn1) as (title1 & _ & Hs1).
  destruct (saveDraft_files t2 iso2 typed st1 text2 eq_refl Hn2)
    as (title2 & _ & Hs2).
  assert (Hi1 : draft_id_of t1 ed = lit "draft_" ++ int_to_string t1).
  { unfold draft_id_of. now rewrite Hc. }
  assert (Hi2 : draft_id_of t2 typed = lit "draft_" ++ int_to_string t2)
    by reflexivity.
  rewrite Hi1 in Hs1. rewrite Hi2 in Hs2.
  exists (lit "draft_" ++ int_to_string t1), (lit "draft_" ++ int_to_string t2).
  subst ed2 st2. rewrite Hs2. cbn [fst snd].
  split; [subst ed1; now rewrite Hs1|]. split; [reflexivity|]. split.
  - intros Hne.
    assert (Hid : lit "draft_" ++ int_to_string t1
                  <> lit "draft_" ++ int_to_string t2).
    { intros Heq. apply app_inv_head in Heq. now apply int_to_string_inj in Heq. }
    split; [exact Hid|].
    unfold Storage.getDraft, Storage.saveDraft, Storage.getDrafts at 1.
    cbn [Storage.drafts_item Storage.parse_or].
    now rewrite get_set_property_other.
  - intros <-. split; [reflexivity|]. eexists. split.
    + unfold Storage.getDraft, Storage.saveDraft, Storage.getDrafts at 1.
      cbn [Storage.drafts_item Storage.parse_or].
      rewrite get_set_property_same by discriminate. reflexivity.
    + reflexivity.
Qed.

Lemma new_draft_ids_witness :
  let ed := {| textarea := Some (lit "one"); currentDraftId := None |} in
  let st1 := snd (saveDraft 41 (lit "a") ed Storage.empty) in
  let typed := {| textarea := Some (lit "two"); currentDraftId := None |} in
  let st2 := snd (saveDraft 42 (lit "b") typed st1) in
  Storage.getDraft (lit "draft_41") st2
  = Storage.GotDraft {| Storage.content := lit "one";
                        Storage.title := lit "one";
                        Storage.updatedAt := lit "a" |}.
Proof.
  intros ed st1 typed st2.
  destruct (new_draft_ids 41 42 (lit "a") (lit "b") ed Storage.empty
              (lit "one") (lit "two") eq_refl)
    as (i1 & i2 & H1 & _ & Hd & _);
    [vm_compute; discriminate|vm_compute; discriminate|reflexivity|].
  assert (Hid : i1 = lit "draft_41").
  { vm_compute in H1. now injection H1 as <-. }
  subst i1. destruct Hd as [_ Hd]; [discriminate|].
  etransitivity; [exact Hd|]. vm_compute. reflexivity.
Defined.


End EditorMore.

Section AppTheme.
Import JS Storage App.

Lemma setSetting_reads (k : jsstring) (v : json) (st : storage) :
  getSettings (snd (setSetting k v st)) !! k = Some v.
Proof.
  unfold setSetting, saveSettings, getSettings at 1. simpl.
  rewrite <- insert_union_singleton_l. apply lookup_insert_eq.
Qed.

(** X26: [toggleTheme()] keeps the page and the store in step: the page
    goes dark unless it was dark and light if it was, the theme setting
    read back is the theme now shown, a page loaded afterwards (its
    attribute not yet 'dark') is set dark by [applySettings()] exactly
    when the toggle went to dark, and a second toggle goes back. *)
Theorem toggleTheme_persists (attr : option jsstring) (st : storage) :
  let dark := Some (lit "dark") in
  let light := Some (lit "light") in
  let attr' := fst (toggleTheme attr st) in
  let st' := snd (toggleTheme attr st) in
  attr' = (if decide (attr = dark) then light else dark)
  /\ (exists v, attr' = Some v /\ getSetting (lit "theme") st' = Own (JStr v))
  /\ (forall attr0, attr0 <> dark ->
        applySettings attr0 st' = dark <-> attr' = dark)
  /\ fst (toggleTheme attr' st')
     = (if decide (attr = dark) then dark else light).
Proof.
  intros dark light attr' st'.
  assert (Hdark : (match attr with
                   | Some v => str_eqb v (lit "dark")
                   | None => false
                   end) = if decide (attr = dark) then true else false).
  { destruct (decide (attr = dark)) as [->|Hn]; [reflexivity|].
    destruct attr as [v|]; [|reflexivity].
    apply str_eqb_neq. intros ->. now apply Hn. }
  assert (Hread : forall v, getSetting (lit "theme")
                    (snd (setSetting (lit "theme") (JStr v) st)) = Own (JStr v)).
  { intros v. unfold getSetting, get_property. now rewrite setSetting_reads. }
  assert (Happly : forall v attr0,
             applySettings attr0 (snd (setSetting (lit "theme") (JStr v) st))
             = if str_eqb v (lit "dark") then dark else attr0).
  { intros v attr0. unfold applySettings, stored_dark, get_property.
    now rewrite setSetting_reads. }
  subst attr' st'. unfold toggleTheme. rewrite Hdark. cbn [fst snd].
  destruct (decide (attr = dark)) as [->|Hn]; cbn [fst snd].
  - split; [reflexivity|]. split; [eexists; split; [reflexivity|apply Hread]|].
    split; [|reflexivity].
    intros attr0 H0. rewrite Happly. simpl. split; [contradiction|discriminate].
  - split; [reflexivity|]. split; [eexists; split; [reflexivity|apply Hread]|].
    split; [|reflexivity].
    intros attr0 H0. rewrite Happly. simpl. split; reflexivity.
Qed.

End AppTheme.
